(** * Canvas link-node plugin: transform parser, geometry matcher,
      URL polling and the Backspace interceptor.

    Shallow embedding of the TypeScript sources.  Conventions:
    - JS strings are modelled as [string] of 8-bit code units (the
      Latin-1 part of UTF-16 code units).
    - JS numbers are modelled by [num]: a rational, the two infinities
      and NaN.  The subtraction of the geometry test is the double
      subtraction: the exact difference rounded to the nearest double
      ([round_f64]).  [parseFloat] yields the exact value of the decimal
      literal it reads; JS rounds it to the nearest double, which is the
      same value for the integers below 2^53 and the short binary
      fractions the code and the claims use. *)

From Stdlib Require Import QArith Qabs Qpower Qround Lqa ZArith Ascii String List Lia.
From stdpp Require Import base options list gmap sets strings.
Import ListNotations.
Local Set Warnings "-register-all".

(** ** Numbers *)

Inductive num : Type :=
| Fin (q : Q)
| PosInf
| NegInf
| NaN.

Definition num0 : num := Fin 0.

(** Round half to even of a rational to an integer. *)
Definition rne (t : Q) : Z :=
  let f := Qfloor t in
  match Qcompare (t - inject_Z f) (1 # 2) with
  | Lt => f
  | Gt => (f + 1)%Z
  | Eq => if Z.even f then f else (f + 1)%Z
  end.

(** [floor (log2 p)] for a positive rational [p]. *)
Definition flog2 (p : Q) : Z :=
  let k := (Z.log2 (Qnum p) - Z.log2 (Zpos (Qden p)))%Z in
  if Qle_bool (2 ^ k)%Q p then k else (k - 1)%Z.

(** The binary64 value nearest to [q] (ties to even): 53-bit significand,
    subnormals down to 2^-1074, and an infinity when the rounded
    magnitude reaches 2^1024.  A zero result is +0 (the sign of a zero
    is invisible to the code below). *)
Definition round_f64 (q : Q) : num :=
  if Qeq_bool q 0 then Fin 0 else
  let p := Qabs q in
  let e := Z.max (flog2 p - 52) (-1074) in
  let v := (inject_Z (rne (p * 2 ^ (- e))) * 2 ^ e)%Q in
  if Qle_bool (2 ^ 1024)%Q v then (if Qle_bool 0 q then PosInf else NegInf)
  else Fin (if Qle_bool 0 q then v else (- v)%Q).

(** ** Character classes (ASCII / Latin-1 code units) *)

Definition code (c : ascii) : nat := nat_of_ascii c.

(** JS [\s], and the white space removed by [trim] and skipped by
    [parseFloat]. *)
Definition is_ws (c : ascii) : bool :=
  let n := code c in
  (Nat.eqb n 9 || Nat.eqb n 10 || Nat.eqb n 11 || Nat.eqb n 12 ||
   Nat.eqb n 13 || Nat.eqb n 32 || Nat.eqb n 160)%bool.

(** JS [\d]. *)
Definition is_digit (c : ascii) : bool :=
  (Nat.leb 48 (code c) && Nat.leb (code c) 57)%bool.

(** JS [\w] = [A-Za-z0-9_]. *)
Definition is_word (c : ascii) : bool :=
  let n := code c in
  (is_digit c || (Nat.leb 65 n && Nat.leb n 90) ||
   (Nat.leb 97 n && Nat.leb n 122) || Nat.eqb n 95)%bool.

(** The regex class [[\-\d.]]. *)
Definition is_num_class (c : ascii) : bool :=
  (Ascii.eqb c "-"%char || is_digit c || Ascii.eqb c "."%char)%bool.

(** ** String scanning helpers *)

(** Longest prefix whose characters satisfy [p], and the rest. *)
Fixpoint span (p : ascii -> bool) (s : string) : string * string :=
  match s with
  | EmptyString => (EmptyString, EmptyString)
  | String c t =>
      if p c then let '(a, b) := span p t in (String c a, b)
      else (EmptyString, s)
  end.

(** [p+] with greedy matching: the longest non-empty prefix. *)
Definition span1 (p : ascii -> bool) (s : string) : option (string * string) :=
  match span p s with
  | (EmptyString, _) => None
  | r => Some r
  end.

Definition skip_ws (s : string) : string := snd (span is_ws s).

(** One literal character. *)
Definition expect (c : ascii) (s : string) : option string :=
  match s with
  | String d t => if Ascii.eqb c d then Some t else None
  | EmptyString => None
  end.

Fixpoint strip_prefix (p s : string) : option string :=
  match p with
  | EmptyString => Some s
  | String c p' =>
      match s with
      | String d s' => if Ascii.eqb c d then strip_prefix p' s' else None
      | EmptyString => None
      end
  end.

(** [String.prototype.split(",")]: always at least one piece. *)
Fixpoint split_on (c : ascii) (s : string) : list string :=
  match s with
  | EmptyString => [EmptyString]
  | String d t =>
      let parts := split_on c t in
      if Ascii.eqb c d then EmptyString :: parts
      else match parts with
           | p :: ps => String d p :: ps
           | [] => [String d EmptyString]
           end
  end.

Fixpoint drop_ws_list (l : list ascii) : list ascii :=
  match l with
  | c :: t => if is_ws c then drop_ws_list t else l
  | [] => []
  end.

(** [String.prototype.trim()]. *)
Definition trim (s : string) : string :=
  string_of_list_ascii
    (rev (drop_ws_list (rev (drop_ws_list (list_ascii_of_string s))))).

(** [String.prototype.includes]. *)
Fixpoint includes (s pat : string) : bool :=
  match strip_prefix pat s with
  | Some _ => true
  | None =>
      match s with
      | EmptyString => false
      | String _ t => includes t pat
      end
  end.

(** ** [parseFloat] *)

Definition digit_val (c : ascii) : Z := Z.of_nat (code c - 48).

Definition digits_value (s : string) : Z :=
  fold_left (fun acc c => acc * 10 + digit_val c)%Z (list_ascii_of_string s) 0%Z.

(** [sign * m * 10^e] as a reduced rational. *)
Definition dec_value (neg : bool) (m e : Z) : Q :=
  let m' := if neg then (- m)%Z else m in
  Qred (if (0 <=? e)%Z then inject_Z (m' * 10 ^ e)
        else Qmake m' (Z.to_pos (10 ^ (- e)))).

(** Optional exponent part [(e|E)[+-]?digits]; an incomplete exponent is
    not part of the longest valid prefix and counts as 0. *)
Definition exponent_part (s : string) : Z :=
  match s with
  | String c t =>
      if (Ascii.eqb c "e"%char || Ascii.eqb c "E"%char)%bool then
        let '(neg, t') :=
          match t with
          | String d u =>
              if Ascii.eqb d "+"%char then (false, u)
              else if Ascii.eqb d "-"%char then (true, u)
              else (false, t)
          | EmptyString => (false, t)
          end in
        match span1 is_digit t' with
        | Some (ds, _) => if neg then (- digits_value ds)%Z else digits_value ds
        | None => 0%Z
        end
      else 0%Z
  | EmptyString => 0%Z
  end.

(** Value of the longest prefix of the (whitespace-trimmed) input that is
    a StrDecimalLiteral; NaN when there is none. *)
Definition parseFloat (s : string) : num :=
  let s1 := skip_ws s in
  let '(neg, s2) :=
    match s1 with
    | String c t =>
        if Ascii.eqb c "+"%char then (false, t)
        else if Ascii.eqb c "-"%char then (true, t)
        else (false, s1)
    | EmptyString => (false, s1)
    end in
  match strip_prefix "Infinity" s2 with
  | Some _ => if neg then NegInf else PosInf
  | None =>
      let '(d1, r1) := span is_digit s2 in
      let '(d2, r2) :=
        match expect "."%char r1 with
        | Some r => span is_digit r
        | None => (EmptyString, r1)
        end in
      if (String.eqb d1 EmptyString && String.eqb d2 EmptyString)%bool then NaN
      else
        Fin (dec_value neg (digits_value (String.append d1 d2))
                       (exponent_part r2 - Z.of_nat (String.length d2)))
  end.

(** [parseFloat(s) || 0]: NaN and 0 become 0. *)
Definition parseFloat_or0 (s : string) : num :=
  match parseFloat s with
  | NaN => num0
  | v => v
  end.

(** ** The three regular expressions of [parseTransformToXY]

    Each regex is run as a deterministic scanner.  In all three, every
    greedy quantifier is followed by a character outside its class
    ([\s*] by [[\-\d.]], [[\-\d.]+] by [,] or [)], [\w+] by [(],
    [[^)]+] by [)]), so backtracking never yields another match and the
    longest-prefix scan computes exactly the regex match. *)

Definition num_tok (s : string) : option (string * string) := span1 is_num_class s.

(** [(?:,\s*([\-\d.]+)){n}] *)
Fixpoint more_toks (n : nat) (s : string) : option (list string * string) :=
  match n with
  | O => Some ([], s)
  | S n' =>
      s1 ← expect ","%char s;
      '(t, s2) ← num_tok (skip_ws s1);
      '(ts, s3) ← more_toks n' s2;
      Some (t :: ts, s3)
  end.

(** [/^matrix\(\s*([\-\d.]+),\s*([\-\d.]+), ... ,\s*([\-\d.]+)\)/]:
    the six capture groups. *)
Definition matrix_exec (s : string) : option (list string) :=
  s0 ← strip_prefix "matrix(" s;
  '(t1, s2) ← num_tok (skip_ws s0);
  '(ts, s3) ← more_toks 5 s2;
  _ ← expect ")"%char s3;
  Some (t1 :: ts).

(** [/^matrix3d\(\s*([\-\d.]+(?:,\s*[\-\d.]+){14})\)/]: capture group 1,
    the text from the first number up to the closing parenthesis. *)
Definition matrix3d_exec (s : string) : option string :=
  s0 ← strip_prefix "matrix3d(" s;
  let s1 := skip_ws s0 in
  '(_, s2) ← num_tok s1;
  '(_, s3) ← more_toks 14 s2;
  _ ← expect ")"%char s3;
  Some (substring 0 (String.length s1 - String.length s3) s1).

(** [/(\w+)\(([^)]+)\)/] tried at the current position:
    function name, raw arguments and the text after the match. *)
Definition try_call (s : string) : option (string * string * string) :=
  '(fn, s1) ← span1 is_word s;
  s2 ← expect "("%char s1;
  '(raw, s3) ← span1 (fun c => negb (Ascii.eqb c ")"%char)) s2;
  s4 ← expect ")"%char s3;
  Some (fn, raw, s4).

(** Body of the [while] loop for one [translate(...)] match. *)
Definition translate_update (rawArgs : string) (xy : num * num) : num * num :=
  match map trim (split_on ","%char rawArgs) with
  | p0 :: p1 :: _ => (parseFloat p0, parseFloat p1)
  | [p0] => (parseFloat p0, num0)
  | [] => xy
  end.

(** The [while ((funcMatch = allFunctionsRegex.exec(s)) !== null)] loop:
    [exec] with the [g] flag tries each start position from [lastIndex]
    on; every match is non-empty, so [S (length s)] steps suffice. *)
Fixpoint scan_calls (fuel : nat) (s : string) (xy : num * num) : num * num :=
  match fuel with
  | O => xy
  | S f =>
      match try_call s with
      | Some (fn, rawArgs, rest) =>
          scan_calls f rest
            (if String.eqb fn "translate" then translate_update rawArgs xy else xy)
      | None =>
          match s with
          | EmptyString => xy
          | String _ t => scan_calls f t xy
          end
      end
  end.

Definition parseTransformToXY (transformString : string) : num * num :=
  if (String.eqb transformString EmptyString || String.eqb transformString "none")%bool
  then (num0, num0)
  else
    match matrix_exec transformString with
    | Some m =>
        (* x = parseFloat(m[5]); y = parseFloat(m[6]); [m] has six groups *)
        (parseFloat (nth 4 m EmptyString), parseFloat (nth 5 m EmptyString))
    | None =>
        match matrix3d_exec transformString with
        | Some g =>
            let parts := map (fun p => parseFloat (trim p)) (split_on ","%char g) in
            (nth 12 parts NaN, nth 13 parts NaN)  (* the group splits into 15 parts *)
        | None => scan_calls (S (String.length transformString)) transformString (num0, num0)
        end
    end.


(** ** Data model: CanvasTypes.ts *)

(** JSON values, for extension fields ([[key: string]: unknown]) and
    for the opaque [edges] array. *)
Inductive json : Type :=
| JNull
| JBool (b : bool)
| JNumber (q : Q)
| JString (s : string)
| JArray (l : list json)
| JObject (fields : list (string * json)).

(** [CanvasNode]; [lastUrl] is the extension field written by the
    polling pass, [extra] holds every other extension field. *)
Record CanvasNode : Type := mkNode {
  id : string;
  type : string;
  url : option string;
  x : Q;
  y : Q;
  width : Q;
  height : Q;
  lastUrl : option string;
  extra : list (string * json)
}.

Record CanvasData : Type := mkData {
  nodes : list CanvasNode;
  edges : list json
}.

Definition set_lastUrl (n : CanvasNode) (u : string) : CanvasNode :=
  mkNode (id n) (type n) (url n) (x n) (y n) (width n) (height n) (Some u) (extra n).

Definition set_url (n : CanvasNode) (u : string) : CanvasNode :=
  mkNode (id n) (type n) (Some u) (x n) (y n) (width n) (height n) (lastUrl n) (extra n).

(** ** Host state *)

(** A [.canvas-node] element: its computed [transform], [width] and
    [height], and the [src] of its first [<webview>] descendant, if any. *)
Record DomElement : Type := mkEl {
  transform : string;
  cssWidth : string;
  cssHeight : string;
  webview : option string
}.

Definition set_src (el : DomElement) (v : string) : DomElement :=
  mkEl (transform el) (cssWidth el) (cssHeight el) (Some v).

(** [webview.src = v] on the element at position [k] of the DOM. *)
Definition update_src (dom : list DomElement) (k : nat) (v : string) : list DomElement :=
  match dom !! k with
  | Some el => <[k := set_src el v]> dom
  | None => dom
  end.

(** [webview.src || ''] for the element at position [k]. *)
Definition src_at (dom : list DomElement) (k : nat) : string :=
  match dom !! k ≫= webview with
  | Some s => s
  | None => EmptyString
  end.

Definition has_webview (dom : list DomElement) (k : nat) : bool :=
  match dom !! k ≫= webview with
  | Some _ => true
  | None => false
  end.

(** File contents: text that [JSON.parse] turns into a [CanvasData]
    (it is what [JSON.stringify] wrote), or text it rejects. *)
Inductive FileContents : Type :=
| Json (d : CanvasData)
| Unparsable (raw : string).

Record TFile : Type := mkFile {
  extension : string;
  contents : FileContents
}.

Record World : Type := mkWorld {
  activeFile : option TFile;
  dom : list DomElement
}.

(** Observable effects of a pass. *)
Inductive effect : Type :=
| PushSrc (nodeId : string) (k : nat) (src : string)  (* webview.src = node.lastUrl *)
| Save (d : CanvasData).                               (* vault.modify(file, JSON.stringify(d)) *)

(** ** Geometry *)

Definition Qltb (a b : Q) : bool := negb (Qle_bool b a).

(** [Math.abs(v) < 0.5]; [Math.abs] of an infinity is [Infinity]. *)
Definition abs_lt_half (v : num) : bool :=
  match v with
  | Fin q => Qltb (Qabs q) (1 # 2)
  | _ => false
  end.

(** [Math.abs(a - b) < 0.5] for a finite [a], the subtraction rounded to
    a double; [a - Infinity] is infinite and [a - NaN] is NaN, so a
    non-finite [b] never passes. *)
Definition close_to (a : Q) (b : num) : bool :=
  match b with
  | Fin q => abs_lt_half (round_f64 (a - q))
  | _ => false
  end.

(** [Math.abs(b - a) < 0.5], the operand order of [injectJSForModelClick]. *)
Definition close_from (b : num) (a : Q) : bool :=
  match b with
  | Fin q => abs_lt_half (round_f64 (q - a))
  | _ => false
  end.

(** [(domX, domY, w, h)] computed from an element's style. *)
Definition elem_geom (el : DomElement) : num * num * num * num :=
  let '(domX, domY) := parseTransformToXY (transform el) in
  (domX, domY, parseFloat_or0 (cssWidth el), parseFloat_or0 (cssHeight el)).

(** The test of [findAllCanvasNodesInDom] (and of the [find] in
    [saveAllWebviewUrls]): [Math.abs(node.x - domX) < 0.5 && ...]. *)
Definition geom_matches (n : CanvasNode) (g : num * num * num * num) : bool :=
  let '(domX, domY, w, h) := g in
  (close_to (x n) domX && close_to (y n) domY &&
   close_to (width n) w && close_to (height n) h)%bool.

(** The test of [injectJSForModelClick] / [injectJSLikeModelSwitcher]:
    [Math.abs(domX - x) < 0.5 && ...]. *)
Definition geom_matches_target (tx ty tw th : Q) (g : num * num * num * num) : bool :=
  let '(domX, domY, w, h) := g in
  (close_from domX tx && close_from domY ty &&
   close_from w tw && close_from h th)%bool.

(** [findAllCanvasNodesInDom(node)]: positions of all matching elements,
    in document order ([result.push(el)] inside the [for] loop). *)
Fixpoint find_all_from (n : CanvasNode) (els : list DomElement) (k : nat) : list nat :=
  match els with
  | [] => []
  | el :: rest =>
      if geom_matches n (elem_geom el) then k :: find_all_from n rest (S k)
      else find_all_from n rest (S k)
  end.

Definition findAllCanvasNodesInDom (n : CanvasNode) (dom : list DomElement) : list nat :=
  find_all_from n dom 0.

(** ** CanvasPolling.doPollingWork (the one-time-init version) *)

(** The mutable state of one pass: the instance's [hasInitialized] set,
    the DOM, the local [changed] flag and the effects so far. *)
Record PassState : Type := mkPS {
  hasInitialized : gset string;
  ps_dom : list DomElement;
  changed : bool;
  effects : list effect
}.

(** Step 1 of the loop body, "One-time init": on the first sight of the
    record's id, remember it and, if [node.lastUrl] is non-blank, set
    [webview.src = node.lastUrl]. *)
Definition one_time_init (ps : PassState) (node : CanvasNode) (k : nat) : PassState :=
  if decide (id node ∈ hasInitialized ps) then ps
  else
    let init := {[id node]} ∪ hasInitialized ps in
    match lastUrl node with
    | Some u =>
        if negb (String.eqb (trim u) EmptyString) then
          mkPS init (update_src (ps_dom ps) k u) (changed ps)
               (effects ps ++ [PushSrc (id node) k u])
        else mkPS init (ps_dom ps) (changed ps) (effects ps)
    | None => mkPS init (ps_dom ps) (changed ps) (effects ps)
    end.

(** Step 2, "Always read webview.src back into node.lastUrl". *)
Definition read_back (ps : PassState) (node : CanvasNode) (k : nat) : PassState * CanvasNode :=
  let updatedSrc := src_at (ps_dom ps) k in
  if decide (lastUrl node = Some updatedSrc) then (ps, node)
  else (mkPS (hasInitialized ps) (ps_dom ps) true (effects ps),
        set_lastUrl node updatedSrc).

(** Body of [for (const domElement of matchingEls)] for the element at
    position [k]; the accumulator carries the record being processed. *)
Definition visit_element (acc : PassState * CanvasNode) (k : nat) : PassState * CanvasNode :=
  let '(ps, node) := acc in
  if negb (has_webview (ps_dom ps) k) then acc   (* no <webview>: continue *)
  else read_back (one_time_init ps node k) node k.

(** Body of [for (const node of linkNodes)]; non-link records are the ones
    [filter(n => n.type === 'link')] left out. *)
Definition process_node (ps : PassState) (node : CanvasNode) : PassState * CanvasNode :=
  if String.eqb (type node) "link" then
    fold_left visit_element (findAllCanvasNodesInDom node (ps_dom ps)) (ps, node)
  else (ps, node).

(** The records are mutated in place inside [canvasData.nodes], in order. *)
Fixpoint process_nodes (ps : PassState) (ns : list CanvasNode) : PassState * list CanvasNode :=
  match ns with
  | [] => (ps, [])
  | n :: rest =>
      let '(ps1, n') := process_node ps n in
      let '(ps2, rest') := process_nodes ps1 rest in
      (ps2, n' :: rest')
  end.

(** [readCanvasData]: [JSON.parse] of the file text, [null] on failure. *)
Definition readCanvasData (f : TFile) : option CanvasData :=
  match contents f with
  | Json d => Some d
  | Unparsable _ => None
  end.

(** One pass.  [saveCanvasData] is modelled as a successful
    [vault.modify] of [JSON.stringify(canvasData)]. *)
Definition doPollingWork (init : gset string) (w : World)
  : gset string * World * list effect :=
  match activeFile w with
  | None => (init, w, [])
  | Some f =>
      if negb (String.eqb (extension f) "canvas") then (init, w, [])
      else
        match readCanvasData f with
        | None => (init, w, [])
        | Some canvasData =>
            let '(ps, nodes') :=
              process_nodes (mkPS init (dom w) false []) (nodes canvasData) in
            let d' := mkData nodes' (edges canvasData) in
            if changed ps then
              (hasInitialized ps,
               mkWorld (Some (mkFile (extension f) (Json d'))) (ps_dom ps),
               effects ps ++ [Save d'])
            else (hasInitialized ps, mkWorld (Some f) (ps_dom ps), effects ps)
        end
  end.

(** ** Plugin lifetime (part_006): [onload] creates a [CanvasPolling]
    (empty [hasInitialized]) and starts it, [onunload] stops it.  The
    world seen at each interval tick is arbitrary: the user and the host
    change the DOM and the file between ticks. *)
Inductive event : Type :=
| PluginLoad
| PluginUnload
| IntervalTick (w : World).

Definition plugin_step (p : option (gset string)) (e : event)
  : option (gset string) * list effect :=
  match e with
  | PluginLoad => (Some ∅, [])
  | PluginUnload => (None, [])
  | IntervalTick w =>
      match p with
      | Some init => let '(init', _, effs) := doPollingWork init w in (Some init', effs)
      | None => (None, [])
      end
  end.

Fixpoint run_events (p : option (gset string)) (es : list event)
  : option (gset string) * list effect :=
  match es with
  | [] => (p, [])
  | e :: rest =>
      let '(p1, effs1) := plugin_step p e in
      let '(p2, effs2) := run_events p1 rest in
      (p2, effs1 ++ effs2)
  end.

(** ** CanvasSaveHelper.saveAllWebviewUrls (per-element variant, writes [url]) *)

Definition link_matching (g : num * num * num * num) (n : CanvasNode) : Prop :=
  type n = "link" /\ geom_matches n g = true.

Fixpoint save_loop (els : list DomElement) (ns : list CanvasNode) (chg : bool)
  : list CanvasNode * bool :=
  match els with
  | [] => (ns, chg)
  | el :: rest =>
      match webview el with
      | None => save_loop rest ns chg
      | Some currentSrc =>
          match list_find (link_matching (elem_geom el)) ns with
          | None => save_loop rest ns chg
          | Some (i, foundNode) =>
              if decide (url foundNode = Some currentSrc) then save_loop rest ns chg
              else save_loop rest (<[i := set_url foundNode currentSrc]> ns) true
          end
      end
  end.

Definition saveAllWebviewUrls (w : World) : World * list effect :=
  match activeFile w with
  | None => (w, [])
  | Some f =>
      if negb (String.eqb (extension f) "canvas") then (w, [])
      else
        match readCanvasData f with
        | None => (w, [])
        | Some canvasData =>
            match dom w with
            | [] => (w, [])
            | _ =>
                let '(nodes', chg) := save_loop (dom w) (nodes canvasData) false in
                let d' := mkData nodes' (edges canvasData) in
                if chg then (mkWorld (Some (mkFile (extension f) (Json d'))) (dom w), [Save d'])
                else (w, [])
            end
        end
  end.

(** ** ModelSwitcher.addAndSwitchModel: the record it appends *)

(** [newLinkNode] with [id: Date.now().toString()] given as [now]. *)
Definition newLinkNode (now : string) : CanvasNode :=
  mkNode now "link" (Some "https://chatgpt.com") 200 (-1000) 760 800 None [].

(** Read, push, write back; the later model-switch injection does not
    touch the document. *)
Definition addLinkNode (now : string) (f : TFile) : option TFile :=
  if negb (String.eqb (extension f) "canvas") then None
  else
    match readCanvasData f with
    | None => None
    | Some d =>
        Some (mkFile (extension f)
                (Json (mkData (nodes d ++ [newLinkNode now]) (edges d))))
    end.

(** ** AddCanvasLinkNodePlugin.handleBackspace *)

(** A selected canvas node as the handler reads it. *)
Record SelNode : Type := mkSel {
  unknownData_url : option string;   (* node?.unknownData?.url *)
  sel_url : option string;           (* node?.url *)
  sel_x : Q;
  sel_y : Q;
  sel_width : Q;
  sel_height : Q
}.

Record KeyEvent : Type := mkKey {
  isTrusted : bool;
  key : string
}.

Inductive kb_effect : Type :=
| PreventDefault
| StopPropagation
| StopImmediatePropagation
| DispatchCtrlShiftBackspace
| ScheduleDeleteClick (ms : nat)
| InjectDeleteScript (nx ny nw nh : Q)   (* injectJSLikeModelSwitcher *)
| ScheduleDeleteSelection (ms : nat).    (* canvas.deleteSelection() *)

(** [node?.unknownData?.url || node?.url]: [''] and [undefined] are falsy. *)
Definition sel_address (n : SelNode) : option string :=
  match unknownData_url n with
  | Some u => if String.eqb u EmptyString then sel_url n else Some u
  | None => sel_url n
  end.

(** [url && url.includes('chatgpt.com')] *)
Definition is_chatgpt (n : SelNode) : bool :=
  match sel_address n with
  | Some u => (negb (String.eqb u EmptyString) && includes u "chatgpt.com")%bool
  | None => false
  end.

(** [selection = None] stands for a missing active leaf, view, canvas or
    selection.  [withDeleteSelection] selects the part_006 version, which
    also schedules [canvas.deleteSelection()]. *)
Definition handleBackspace (withDeleteSelection : bool) (evt : KeyEvent)
    (selection : option (list SelNode)) : list kb_effect :=
  if negb (isTrusted evt) then []
  else if negb (String.eqb (key evt) "Backspace") then []
  else
    match selection with
    | None => []
    | Some sel =>
        if Nat.eqb (length sel) 0 then []
        else if negb (existsb is_chatgpt sel) then []
        else
          [PreventDefault; StopPropagation; StopImmediatePropagation;
           DispatchCtrlShiftBackspace; ScheduleDeleteClick 1000] ++
          map (fun n => InjectDeleteScript (sel_x n) (sel_y n) (sel_width n) (sel_height n))
              (filter is_chatgpt sel) ++
          (if withDeleteSelection then [ScheduleDeleteSelection 2000] else [])
    end.

(** ** ModelSwitcher.addAndSwitchModel and injectJSForModelClick *)

(** The [switch (chosenModel)]: the menu index to click, [None] for the
    [default] branch. *)
Definition model_index (chosenModel : string) : option nat :=
  if String.eqb chosenModel "4o" then Some 0
  else if String.eqb chosenModel "o1" then Some 1
  else if String.eqb chosenModel "o1-pro" then Some 3
  else None.

(** [ModelSelectionModal]: [models = ['4o', 'o1', 'o1-pro']], one button
    each, whose click calls [onChoice(model)]. *)
Definition modal_models : list string := ["4o"; "o1"; "o1-pro"].

Inductive ms_notice : Type :=
| NoticeUnknownModel (chosenModel : string)   (* `Unknown model: ...` *)
| NoticeNoCanvas                              (* 'No active .canvas file found.' *)
| NoticeCreated (x y : Q)                     (* `Created ChatGPT node at ...` *)
| NoticeCouldNotUpdate.                       (* 'Error: Could not update the canvas.' *)

Inductive ms_effect : Type :=
| MsNotice (n : ms_notice)
| MsModify (d : CanvasData)                   (* vault.modify(activeFile, JSON.stringify(...)) *)
| MsInjectAfter (ms : nat) (x y w h : Q) (indexToClick : nat).
    (* setTimeout(() => this.injectJSForModelClick(x, y, w, h, indexToClick), ms) *)

(** The body of [addAndSwitchModel(chosenModel)], for the constant width
    [w] of the record it creates: 760 in ModelSwitcher.ts, 860 in the
    copy inside the part_000 plugin.  [now] is [Date.now().toString()];
    a failing [JSON.parse] is the [catch] branch. *)
Definition add_and_switch (w : Q) (now chosenModel : string) (activeFile : option TFile)
  : option TFile * list ms_effect :=
  match model_index chosenModel with
  | None => (activeFile, [MsNotice (NoticeUnknownModel chosenModel)])
  | Some indexToClick =>
      let x := 200%Q in let y := (-1000)%Q in let h := 800%Q in
      match activeFile with
      | None => (activeFile, [MsNotice NoticeNoCanvas])
      | Some f =>
          if negb (String.eqb (extension f) "canvas") then (activeFile, [MsNotice NoticeNoCanvas])
          else
            match readCanvasData f with
            | None => (activeFile, [MsNotice NoticeCouldNotUpdate])
            | Some canvasData =>
                let newNode := mkNode now "link" (Some "https://chatgpt.com") x y w h None [] in
                let d' := mkData (nodes canvasData ++ [newNode]) (edges canvasData) in
                (Some (mkFile (extension f) (Json d')),
                 [MsModify d'; MsNotice (NoticeCreated x y);
                  MsInjectAfter 2000 x y w h indexToClick])
            end
      end
  end.

Definition addAndSwitchModel (now chosenModel : string) (activeFile : option TFile)
  : option TFile * list ms_effect :=
  add_and_switch 760 now chosenModel activeFile.

Definition addAndSwitchModel_part000 (now chosenModel : string) (activeFile : option TFile)
  : option TFile * list ms_effect :=
  add_and_switch 860 now chosenModel activeFile.

(** The search loop of [injectJSForModelClick] and of
    [injectJSLikeModelSwitcher]: the position of the first element whose
    geometry passes the test, then [break]. *)
Fixpoint find_first_canvas_node (x y width height : Q) (els : list DomElement) (k : nat)
  : option nat :=
  match els with
  | [] => None
  | el :: rest =>
      if geom_matches_target x y width height (elem_geom el) then Some k
      else find_first_canvas_node x y width height rest (S k)
  end.

(** [injectJSForModelClick(x, y, width, height, indexToClick)]: the
    element whose webview receives the model-switch script, with the
    index spliced into it; [None] when no element is found or the found
    one has no [<webview>] (an Electron [<webview>] always has
    [executeJavaScript]). *)
Definition injectJSForModelClick (x y width height : Q) (indexToClick : nat)
    (dom : list DomElement) : option (nat * nat) :=
  match find_first_canvas_node x y width height dom 0 with
  | None => None
  | Some k => if has_webview dom k then Some (k, indexToClick) else None
  end.

(** [injectJSLikeModelSwitcher(nx, ny, nw, nh)] of [handleBackspace]: the
    same search; the element whose webview receives the delete script. *)
Definition injectJSLikeModelSwitcher (x y width height : Q) (dom : list DomElement)
  : option nat :=
  match find_first_canvas_node x y width height dom 0 with
  | None => None
  | Some k => if has_webview dom k then Some k else None
  end.

(** part_000's [findCanvasNodeByCoords]: no [|| 0] after [parseFloat], and
    [null] when the active file is not a canvas. *)
Fixpoint find_by_coords_loop (x y width height : Q) (els : list DomElement) (k : nat)
  : option nat :=
  match els with
  | [] => None
  | el :: rest =>
      let '(domX, domY) := parseTransformToXY (transform el) in
      if geom_matches_target x y width height
           (domX, domY, parseFloat (cssWidth el), parseFloat (cssHeight el))
      then Some k
      else find_by_coords_loop x y width height rest (S k)
  end.

Definition findCanvasNodeByCoords (x y width height : Q) (w : World) : option nat :=
  match activeFile w with
  | None => None
  | Some f =>
      if negb (String.eqb (extension f) "canvas") then None
      else find_by_coords_loop x y width height (dom w) 0
  end.

(** ** CanvasPolling.start / stop and the plugin's onload / onunload *)

(** The host's interval timers: [window.setInterval] hands out fresh
    positive ids (so a started [intervalId] is truthy), [clearInterval]
    cancels one. *)
Record Timers : Type := mkTimers {
  next_id : positive;
  active : list positive
}.

Definition setInterval (t : Timers) : positive * Timers :=
  (next_id t, mkTimers (Pos.succ (next_id t)) (next_id t :: active t)).

Definition clearInterval (i : positive) (t : Timers) : Timers :=
  mkTimers (next_id t) (List.filter (fun j => negb (Pos.eqb i j)) (active t)).

(** [start()]: [if (this.intervalId) return; this.intervalId = setInterval(...)]. *)
Definition start (intervalId : option positive) (t : Timers) : option positive * Timers :=
  match intervalId with
  | Some _ => (intervalId, t)
  | None => let '(i, t') := setInterval t in (Some i, t')
  end.

(** [stop()]: [if (this.intervalId) { clearInterval(...); this.intervalId = null; }]. *)
Definition stop (intervalId : option positive) (t : Timers) : option positive * Timers :=
  match intervalId with
  | Some i => (None, clearInterval i t)
  | None => (None, t)
  end.

Inductive poll_call : Type := CallStart | CallStop.

(** Calls on one [CanvasPolling] instance. *)
Fixpoint run_calls (intervalId : option positive) (t : Timers) (cs : list poll_call)
  : option positive * Timers :=
  match cs with
  | [] => (intervalId, t)
  | CallStart :: rest => let '(iv, t') := start intervalId t in run_calls iv t' rest
  | CallStop :: rest => let '(iv, t') := stop intervalId t in run_calls iv t' rest
  end.

(** The part_006 plugin: [canvasPolling] is [null] ([None]) or an
    instance, given by its [intervalId]; [onload] makes a new instance and
    starts it, [onunload] calls [this.canvasPolling?.stop()]. *)
Inductive lifecycle : Type := OnLoad | OnUnload.

Definition plugin_lifecycle_step (canvasPolling : option (option positive)) (t : Timers)
    (e : lifecycle) : option (option positive) * Timers :=
  match e with
  | OnLoad => let '(iv, t') := start None t in (Some iv, t')
  | OnUnload =>
      match canvasPolling with
      | Some iv => let '(iv', t') := stop iv t in (Some iv', t')
      | None => (None, t)
      end
  end.

Fixpoint run_lifecycle (canvasPolling : option (option positive)) (t : Timers)
    (es : list lifecycle) : option (option positive) * Timers :=
  match es with
  | [] => (canvasPolling, t)
  | e :: rest =>
      let '(cp, t') := plugin_lifecycle_step canvasPolling t e in run_lifecycle cp t' rest
  end.

(** ** The lastUrl polling loop of the first CanvasPolling.doPollingWork
    (part_002) and of part_000's startPollingCanvasNodes *)

Fixpoint poll_loop_v1 (els : list DomElement) (ns : list CanvasNode) (changed : bool)
  : list CanvasNode * bool :=
  match els with
  | [] => (ns, changed)
  | el :: rest =>
      match webview el with
      | None => poll_loop_v1 rest ns changed
      | Some currentSrc =>
          match list_find (link_matching (elem_geom el)) ns with
          | None => poll_loop_v1 rest ns changed
          | Some (i, foundNode) =>
              if decide (lastUrl foundNode = Some currentSrc) then poll_loop_v1 rest ns changed
              else poll_loop_v1 rest (<[i := set_lastUrl foundNode currentSrc]> ns) true
          end
      end
  end.

Definition doPollingWork_v1 (w : World) : World * list effect :=
  match activeFile w with
  | None => (w, [])
  | Some f =>
      if negb (String.eqb (extension f) "canvas") then (w, [])
      else
        match readCanvasData f with
        | None => (w, [])
        | Some canvasData =>
            match dom w with
            | [] => (w, [])
            | _ =>
                let '(nodes', chg) := poll_loop_v1 (dom w) (nodes canvasData) false in
                let d' := mkData nodes' (edges canvasData) in
                if chg then (mkWorld (Some (mkFile (extension f) (Json d'))) (dom w), [Save d'])
                else (w, [])
            end
        end
  end.

(** ** Readings of the spec used by the statements below *)

(** The chained function calls of a transform string, as the global
    regex [/(\w+)\(([^)]+)\)/g] enumerates them: (name, raw arguments). *)
Fixpoint calls (fuel : nat) (s : string) : list (string * string) :=
  match fuel with
  | O => []
  | S f =>
      match try_call s with
      | Some (fn, rawArgs, rest) => (fn, rawArgs) :: calls f rest
      | None =>
          match s with
          | EmptyString => []
          | String _ t => calls f t
          end
      end
  end.

(** Raw arguments of the last [translate] call, if any. *)
Fixpoint last_translate (cs : list (string * string)) : option string :=
  match cs with
  | [] => None
  | (fn, rawArgs) :: rest =>
      match last_translate rest with
      | Some a => Some a
      | None => if String.eqb fn "translate" then Some rawArgs else None
      end
  end.

(** First argument as x, second (or 0 when absent) as y. *)
Definition translate_xy (rawArgs : string) : num * num :=
  let parts := map trim (split_on ","%char rawArgs) in
  (parseFloat (nth 0 parts EmptyString),
   match nth_error parts 1 with
   | Some p => parseFloat p
   | None => num0
   end).

Definition all_chars (p : ascii -> bool) (s : string) : bool :=
  forallb p (list_ascii_of_string s).

(** A numeric argument written with [-], digits and [.] only. *)
Definition plain_number (t : string) : bool :=
  (negb (String.eqb t EmptyString) && all_chars is_num_class t)%bool.

(** [,] + white space + argument, for the arguments after the first. *)
Fixpoint render_more (args : list (string * string)) : string :=
  match args with
  | [] => EmptyString
  | (w, t) :: rest => String ","%char (String.append w (String.append t (render_more rest)))
  end.

(** "matrix(" + white space + first argument + the others + ")" + rest. *)
Definition matrix_text (w1 t1 : string) (more : list (string * string)) (rest : string) : string :=
  String.append "matrix("
    (String.append w1 (String.append t1 (String.append (render_more more) (String ")"%char rest)))).

(** The elements of [findAllCanvasNodesInDom node] that carry a
    [<webview>]: the ones the loop body does not skip. *)
Definition wv_matches (d : list DomElement) (n : CanvasNode) : list nat :=
  List.filter (has_webview d) (findAllCanvasNodesInDom n d).

(** Every link record matches at most one element with a [<webview>], and
    no such element is matched by two link records ([used] holds the
    elements already taken by earlier records). *)
Fixpoint exclusive (used : list nat) (ns : list CanvasNode) (d : list DomElement) : bool :=
  match ns with
  | [] => true
  | n :: rest =>
      if String.eqb (type n) "link" then
        match wv_matches d n with
        | [] => exclusive used rest d
        | [k] => (negb (existsb (Nat.eqb k) used) && exclusive (k :: used) rest d)%bool
        | _ => false
        end
      else exclusive used rest d
  end.

Definition exclusive_world (w : World) : bool :=
  match activeFile w with
  | Some f =>
      match readCanvasData f with
      | Some d => exclusive [] (nodes d) (dom w)
      | None => true
      end
  | None => true
  end.

(** Number of pushes [webview.src = node.lastUrl] made for record id [i]. *)
Fixpoint pushes (i : string) (effs : list effect) : nat :=
  match effs with
  | [] => 0
  | PushSrc j _ _ :: rest => (if String.eqb i j then 1 else 0) + pushes i rest
  | Save _ :: rest => pushes i rest
  end.

Definition is_save (e : effect) : bool :=
  match e with Save _ => true | PushSrc _ _ _ => false end.

(** Whether a list of effects contains a write of the document. *)
Definition has_save (effs : list effect) : bool := existsb is_save effs.

(** How a pass may change one record: not at all, or, for a link record
    with a matching element that has a [<webview>], only in [lastUrl]. *)
Definition frame_rel (d : list DomElement) (n n' : CanvasNode) : Prop :=
  n' = n \/
  (type n = "link" /\
   (exists k, In k (findAllCanvasNodesInDom n d) /\ has_webview d k = true) /\
   exists u, n' = set_lastUrl n u).

(** The same for [saveAllWebviewUrls], which writes [url]. *)
Definition frame_rel_url (d : list DomElement) (n n' : CanvasNode) : Prop :=
  n' = n \/
  (type n = "link" /\
   (exists el, In el d /\ webview el <> None /\ geom_matches n (elem_geom el) = true) /\
   exists u, n' = set_url n u).

(** Number of times the plugin is loaded in a sequence of events. *)
Fixpoint loads (es : list event) : nat :=
  match es with
  | [] => 0
  | PluginLoad :: rest => S (loads rest)
  | _ :: rest => loads rest
  end.

(** What of an element a pass can observe apart from the address its
    view shows; a pass never changes it. *)
Definition el_shape (el : DomElement) : string * string * string * bool :=
  (transform el, cssWidth el, cssHeight el,
   match webview el with Some _ => true | None => false end).

Definition shape (d : list DomElement) : list (string * string * string * bool) :=
  el_shape <$> d.

(** A record on which a pass has nothing left to do: if it is a link
    record, it has at most one matching element with a view, its id has
    been seen, and it stores what that view shows. *)
Definition settled (init : gset string) (d : list DomElement) (n : CanvasNode) : Prop :=
  type n = "link" ->
  match wv_matches d n with
  | [] => True
  | [k] => id n ∈ init /\ lastUrl n = Some (src_at d k)
  | _ => False
  end.

Definition ind (i : string) (s : gset string) : nat :=
  if decide (i ∈ s) then 1 else 0.

(** [ind] for the plugin state; an unloaded plugin counts as having seen
    every id. *)
Definition ind_p (i : string) (p : option (gset string)) : nat :=
  match p with
  | Some s => ind i s
  | None => 1
  end.

(** [ps'] extends [ps] by pushes only, at most one per id newly added to
    [hasInitialized]. *)
Definition grows (ps ps' : PassState) : Prop :=
  exists new,
    effects ps' = effects ps ++ new /\
    has_save new = false /\
    hasInitialized ps ⊆ hasInitialized ps' /\
    forall i, pushes i new + ind i (hasInitialized ps) <= ind i (hasInitialized ps').

(** The loops of [saveAllWebviewUrls] and of the [lastUrl] polling differ
    only in the field they compare and assign. *)
Fixpoint assign_loop (get : CanvasNode -> option string) (set : CanvasNode -> string -> CanvasNode)
    (els : list DomElement) (ns : list CanvasNode) (chg : bool) : list CanvasNode * bool :=
  match els with
  | [] => (ns, chg)
  | el :: rest =>
      match webview el with
      | None => assign_loop get set rest ns chg
      | Some currentSrc =>
          match list_find (link_matching (elem_geom el)) ns with
          | None => assign_loop get set rest ns chg
          | Some (i, foundNode) =>
              if decide (get foundNode = Some currentSrc) then assign_loop get set rest ns chg
              else assign_loop get set rest (<[i := set foundNode currentSrc]> ns) true
          end
      end
  end.

(** [saveAllWebviewUrls] and the first [doPollingWork], with their loop
    given by the field it assigns. *)
Definition assign_run (get : CanvasNode -> option string) (set : CanvasNode -> string -> CanvasNode)
    (w : World) : World * list effect :=
  match activeFile w with
  | None => (w, [])
  | Some f =>
      if negb (String.eqb (extension f) "canvas") then (w, [])
      else
        match readCanvasData f with
        | None => (w, [])
        | Some canvasData =>
            match dom w with
            | [] => (w, [])
            | _ =>
                let '(nodes', chg) := assign_loop get set (dom w) (nodes canvasData) false in
                let d' := mkData nodes' (edges canvasData) in
                if chg then (mkWorld (Some (mkFile (extension f) (Json d'))) (dom w), [Save d'])
                else (w, [])
            end
        end
  end.

(** The record an element with a [<webview>] is assigned to: the first
    link record whose geometry matches it. *)
Definition claim (ns : list CanvasNode) (el : DomElement) : option nat :=
  match webview el with
  | Some _ => fst <$> list_find (link_matching (elem_geom el)) ns
  | None => None
  end.

(** The [src] of the elements assigned to record [i], in document order. *)
Fixpoint srcs_for (ns : list CanvasNode) (i : nat) (els : list DomElement) : list string :=
  match els with
  | [] => []
  | el :: rest =>
      match webview el with
      | Some s => if decide (claim ns el = Some i) then s :: srcs_for ns i rest
                  else srcs_for ns i rest
      | None => srcs_for ns i rest
      end
  end.

(** Elements assigned to the same record show the same page. *)
Definition uniform_claims (els : list DomElement) (ns : list CanvasNode) : Prop :=
  forall el1 el2 s1 s2 j, In el1 els -> In el2 els ->
    webview el1 = Some s1 -> webview el2 = Some s2 ->
    claim ns el1 = Some j -> claim ns el2 = Some j -> s1 = s2.

(** The timers already running are older than the next id. *)
Definition fresh_timers (t : Timers) : Prop :=
  List.Forall (fun j => (j < next_id t)%positive) (active t).

(** What stays true of one [CanvasPolling] instance and the host's timers
    [t], relative to the timers [t0] running before it was created. *)
Definition timers_inv (t0 : Timers) (intervalId : option positive) (t : Timers) : Prop :=
  fresh_timers t /\ (next_id t0 <= next_id t)%positive /\
  active t = option_list intervalId ++ active t0 /\
  (forall i, intervalId = Some i -> (next_id t0 <= i)%positive).

(** The plugin's [canvasPolling] field and the host's timers: a loaded
    plugin has exactly one live instance with its timer set. *)
Definition plugin_inv (t0 : Timers) (loaded : bool) (canvasPolling : option (option positive))
    (t : Timers) : Prop :=
  match canvasPolling with
  | None => loaded = false /\ timers_inv t0 None t
  | Some iv => timers_inv t0 iv t /\ loaded = match iv with Some _ => true | None => false end
  end.

(** The document of the active file, when it parses. *)
Definition file_data (w : World) : option CanvasData :=
  match activeFile w with
  | Some f => readCanvasData f
  | None => None
  end.

(** [onload] and [onunload] alternate, starting unloaded. *)
Fixpoint alternates (loaded : bool) (es : list lifecycle) : bool :=
  match es with
  | [] => true
  | OnLoad :: rest => negb loaded && alternates true rest
  | OnUnload :: rest => loaded && alternates false rest
  end.

Definition ends_loaded (es : list lifecycle) : bool :=
  match last es with
  | Some OnLoad => true
  | _ => false
  end.

(** "matrix3d(" + white space + first argument + the others + ")" + rest. *)
Definition matrix3d_text (w1 t1 : string) (more : list (string * string)) (rest : string) : string :=
  String.append "matrix3d("
    (String.append w1 (String.append t1 (String.append (render_more more) (String ")"%char rest)))).

(** ** Concrete inputs used by the examples below *)

(** A DOM whose only element is the rendered node created by
    [addAndSwitchModel], now showing a conversation. *)
Definition el_created : DomElement :=
  mkEl "matrix(1, 0, 0, 1, 200, -1000)" "760px" "800px" (Some "https://chatgpt.com/c/abc").

(** A link record and two elements at its geometry whose views show
    different addresses (a duplicated view). *)
Definition node_dup : CanvasNode := mkNode "n" "link" None 0 0 10 10 None [].
Definition el_dup_a : DomElement := mkEl "none" "10px" "10px" (Some "a").
Definition el_dup_b : DomElement := mkEl "none" "10px" "10px" (Some "b").
Definition world_dup : World :=
  mkWorld (Some (mkFile "canvas" (Json (mkData [node_dup] [])))) [el_dup_a; el_dup_b].

(** Two link records stacked at the same geometry (a node duplicated in
    place), each rendered with its own view. *)
Definition node_dup2 : CanvasNode := mkNode "m" "link" None 0 0 10 10 None [].
Definition world_pair : World :=
  mkWorld (Some (mkFile "canvas" (Json (mkData [node_dup; node_dup2] []))))
          [el_dup_a; el_dup_b].

(** A link record with a stored address and one matching view. *)
Definition node_tiny : CanvasNode :=
  mkNode "t" "link" None (1 # 1152921504606846976) 0 10 10 None [].
Definition el_half : DomElement := mkEl "matrix(1, 0, 0, 1, 0.5, 0)" "10px" "10px" (Some "a").
Definition node_stored : CanvasNode := set_lastUrl node_dup "https://chatgpt.com/c/old".
Definition node_far1 : CanvasNode := mkNode "p" "link" None 100 0 10 10 None [].
Definition node_far2 : CanvasNode := mkNode "q" "link" None 100 0 10 10 None [].
Definition el_far_c : DomElement := mkEl "translate(100px, 0px)" "10px" "10px" (Some "c").
Definition el_far_d : DomElement := mkEl "translate(100px, 0px)" "10px" "10px" (Some "d").
Definition data_mixed : CanvasData := mkData [node_stored; node_far1; node_far2] [].
Definition world_mixed : World :=
  mkWorld (Some (mkFile "canvas" (Json data_mixed))) [el_dup_a; el_far_c; el_far_d].
Definition world_stored : World :=
  mkWorld (Some (mkFile "canvas" (Json (mkData [node_stored] [])))) [el_dup_a].

(** * Properties *)

(** ** Helper lemmas *)

Lemma Qltb_iff (a b : Q) : Qltb a b = true <-> (a < b)%Q.
Proof.
  unfold Qltb. rewrite negb_true_iff. split.
  - intros H. apply Qnot_le_lt. intros Hle. apply Qle_bool_iff in Hle. congruence.
  - intros H. destruct (Qle_bool b a) eqn:E; [|reflexivity].
    apply Qle_bool_iff in E. exfalso. apply (Qlt_not_le a b); assumption.
Qed.

Section Rounding.
Local Open Scope Q_scope.

Lemma rne_bounds t : t - (1 # 2) <= inject_Z (rne t) <= t + (1 # 2).
Proof.
  pose proof (Qfloor_le t) as H1. pose proof (Qlt_floor t) as H2.
  rewrite inject_Z_plus in H2. unfold rne.
  destruct (Qcompare_spec (t - inject_Z (Qfloor t)) (1 # 2)) as [E|E|E];
    [destruct (Z.even (Qfloor t))|..]; rewrite ?inject_Z_plus;
    change (inject_Z 1) with 1 in *; generalize dependent (inject_Z (Qfloor t)); intros; lra.
Qed.

Lemma rne_floor t : (Qfloor t <= rne t)%Z.
Proof.
  unfold rne; destruct (Qcompare _ _); [destruct (Z.even _)|..]; lia.
Qed.

Lemma Q2pow_pos e : 0 < (2:Q) ^ e.
Proof. apply Qpower_0_lt; reflexivity. Qed.

Lemma Q2pow_plus a b : (2:Q) ^ (a + b) == 2 ^ a * 2 ^ b.
Proof. apply Qpower_plus; discriminate. Qed.

Lemma Q2pow_lt a b : 2 ^ a < (2:Q) ^ b -> (a < b)%Z.
Proof. intros H; apply (Qpower_lt_compat_l_inv 2); [exact H|reflexivity]. Qed.

Lemma Q2pow_le a b : (a <= b)%Z -> 2 ^ a <= (2:Q) ^ b.
Proof. intros H; apply Qpower_le_compat_l; [exact H|discriminate]. Qed.

Lemma Q2pow_Z a : (0 <= a)%Z -> (2:Q) ^ a == inject_Z (2 ^ a).
Proof. intros H; rewrite Zpower_Qpower by exact H; reflexivity. Qed.

Lemma flog2_spec p : 0 < p -> 2 ^ flog2 p <= p /\ p < 2 ^ (flog2 p + 1).
Proof.
  destruct p as [n d]; intros Hp.
  assert (Hn : (0 < n)%Z) by (unfold Qlt in Hp; simpl in Hp; lia).
  unfold flog2; simpl Qnum; simpl Qden.
  set (a := Z.log2 n); set (b := Z.log2 (Zpos d)).
  destruct (Z.log2_spec n Hn) as [Ha1 Ha2].
  destruct (Z.log2_spec (Zpos d) eq_refl) as [Hb1 Hb2].
  assert (Ha : (0 <= a)%Z) by apply Z.log2_nonneg.
  assert (Hb : (0 <= b)%Z) by apply Z.log2_nonneg.
  fold a b in Ha1, Ha2, Hb1, Hb2.
  assert (Hq : n # d == inject_Z n / inject_Z (Zpos d)) by (rewrite Qmake_Qdiv; reflexivity).
  (* 2^(a-b-1) < n/d < 2^(a-b+1) *)
  assert (Hlo : 2 ^ (a - b - 1) < n # d).
  { assert (E : (2:Q) ^ a == 2 ^ (a - b - 1) * 2 ^ (b + 1))
      by (rewrite <- Q2pow_plus; f_equiv; lia).
    rewrite Q2pow_Z in E by lia. rewrite (Q2pow_Z (b + 1)) in E by lia.
    rewrite Hq. apply Qlt_shift_div_l; [unfold Qlt; simpl; lia|].
    apply (Qlt_le_trans _ (2 ^ (a - b - 1) * inject_Z (2 ^ (b + 1)))).
    - apply Qmult_lt_l; [apply Q2pow_pos|]. rewrite <- Zlt_Qlt.
      unfold Z.succ in Hb2. exact Hb2.
    - rewrite <- E. rewrite <- Zle_Qle. exact Ha1. }
  assert (Hhi : n # d < 2 ^ (a - b + 1)).
  { assert (E : (2:Q) ^ (a + 1) == 2 ^ (a - b + 1) * 2 ^ b)
      by (rewrite <- Q2pow_plus; f_equiv; lia).
    rewrite Q2pow_Z in E by lia. rewrite (Q2pow_Z b) in E by lia.
    rewrite Hq. apply Qlt_shift_div_r; [unfold Qlt; simpl; lia|].
    apply (Qlt_le_trans _ (inject_Z (2 ^ (a + 1)))).
    - rewrite <- Zlt_Qlt. unfold Z.succ in Ha2. exact Ha2.
    - rewrite E. apply Qmult_le_l; [apply Q2pow_pos|]. rewrite <- Zle_Qle. exact Hb1. }
  destruct (Qle_bool (2 ^ (a - b)) (n # d)) eqn:E.
  - apply Qle_bool_iff in E. split; [exact E|]. exact Hhi.
  - split.
    + replace (a - b - 1)%Z with (a - b - 1)%Z by lia. apply Qlt_le_weak; exact Hlo.
    + replace (a - b - 1 + 1)%Z with (a - b)%Z by lia.
      apply Qnot_le_lt. intros C. apply Qle_bool_iff in C. congruence.
Qed.

Lemma Qfloor_exact (t : Q) (z : Z) : inject_Z z <= t -> t < inject_Z z + 1 -> Qfloor t = z.
Proof.
  intros H1 H2. pose proof (Qfloor_le t) as F1. pose proof (Qlt_floor t) as F2.
  rewrite inject_Z_plus in F2. change (inject_Z 1) with 1 in F2.
  assert (A : (Qfloor t < z + 1)%Z).
  { rewrite Zlt_Qlt, inject_Z_plus. change (inject_Z 1) with 1. lra. }
  assert (B : (z < Qfloor t + 1)%Z).
  { rewrite Zlt_Qlt, inject_Z_plus. change (inject_Z 1) with 1. lra. }
  lia.
Qed.

Lemma round_core (p : Q) : 0 < p ->
  let e := Z.max (flog2 p - 52) (-1074) in
  let v := inject_Z (rne (p * 2 ^ (- e))) * 2 ^ e in
  0 <= v /\ (v < 1 # 2 <-> p < (1 # 2) - 2 ^ (-55)).
Proof.
  intros Hp e v.
  destruct (flog2_spec p Hp) as [HL1 HL2]. set (L := flog2 p) in *.
  assert (He : 0 < 2 ^ e) by apply Q2pow_pos.
  assert (Ht : p * 2 ^ (- e) * 2 ^ e == p).
  { rewrite <- Qmult_assoc, <- Q2pow_plus, Z.add_opp_diag_l. simpl. ring. }
  set (t := p * 2 ^ (- e)) in *.
  assert (Ht0 : 0 <= t) by (apply Qmult_le_0_compat; [lra|apply Qlt_le_weak, Q2pow_pos]).
  assert (Hm0 : (0 <= rne t)%Z).
  { pose proof (rne_floor t). pose proof (Qfloor_resp_le 0 t Ht0) as F.
    change (Qfloor 0) with 0%Z in F. lia. }
  assert (Hv0 : 0 <= v).
  { apply Qmult_le_0_compat; [|lra]. change 0 with (inject_Z 0). rewrite <- Zle_Qle. exact Hm0. }
  split; [exact Hv0|].
  assert (T55 : (2:Q) ^ (-55) == 1 # 36028797018963968) by reflexivity.
  destruct (rne_bounds t) as [Hr1 Hr2].
  destruct (Qlt_le_dec p (1 # 4)) as [Hc|Hc];
    [|destruct (Qlt_le_dec p (1 # 2)) as [Hb|Ha]].
  - (* p < 1/4: the rounding error is at most 2^-56 *)
    assert (HL : (L < -2)%Z).
    { apply Q2pow_lt. assert (E : (2:Q) ^ (-2) == 1 # 4) by reflexivity. lra. }
    assert (He55 : 2 ^ e <= (2:Q) ^ (-55)) by (apply Q2pow_le; unfold e; lia).
    assert (Hv : v <= p + (1 # 2) * 2 ^ e).
    { unfold v. apply (Qle_trans _ ((t + (1 # 2)) * 2 ^ e)).
      - apply Qmult_le_compat_r; lra.
      - rewrite Qmult_plus_distr_l, Ht. lra. }
    lra.
  - (* 1/4 <= p < 1/2: the binade just below 1/2 *)
    assert (HL : L = (-2)%Z).
    { assert (A : (L < -1)%Z).
      { apply Q2pow_lt. assert (E : (2:Q) ^ (-1) == 1 # 2) by reflexivity. lra. }
      assert (B : (-2 < L + 1)%Z).
      { apply Q2pow_lt. assert (E : (2:Q) ^ (-2) == 1 # 4) by reflexivity. lra. }
      lia. }
    assert (He54 : e = (-54)%Z) by (unfold e; rewrite HL; reflexivity).
    assert (Hpt : t == p * 18014398509481984) by (unfold t; rewrite He54; reflexivity).
    assert (Hvm : v == inject_Z (rne t) * (1 # 18014398509481984))
      by (unfold v; fold t; rewrite He54; reflexivity).
    split.
    + intros Hv. destruct (Qlt_le_dec p ((1 # 2) - 2 ^ (-55))) as [H|H]; [exact H|exfalso].
      assert (Hf : Qfloor t = 9007199254740991%Z) by (apply Qfloor_exact; unfold inject_Z; lra).
      assert (Hm : rne t = 9007199254740992%Z).
      { unfold rne. rewrite Hf.
        destruct (Qcompare_spec (t - inject_Z 9007199254740991) (1 # 2)) as [E|E|E];
          [reflexivity| |reflexivity].
        exfalso. unfold inject_Z in E. lra. }
      rewrite Hvm, Hm in Hv. unfold inject_Z in Hv. lra.
    + intros H.
      assert (Hm : (rne t < 9007199254740992)%Z).
      { rewrite Zlt_Qlt. change (inject_Z 9007199254740992) with (9007199254740992 # 1). lra. }
      assert (Hm' : inject_Z (rne t) <= 9007199254740991)
        by (change 9007199254740991 with (inject_Z 9007199254740991); rewrite <- Zle_Qle; lia).
      rewrite Hvm. lra.
  - (* p >= 1/2: the result is at least 2^L >= 1/2 *)
    assert (HL : (-1 <= L)%Z).
    { assert (B : (-1 < L + 1)%Z).
      { apply Q2pow_lt. assert (E : (2:Q) ^ (-1) == 1 # 2) by reflexivity. lra. }
      lia. }
    assert (He52 : e = (L - 52)%Z) by (unfold e; lia).
    assert (Ht52 : inject_Z (2 ^ 52) <= t).
    { rewrite <- Q2pow_Z by lia. unfold t. rewrite He52.
      replace 52%Z with (L + - (L - 52))%Z at 1 by lia. rewrite Q2pow_plus.
      apply Qmult_le_compat_r; [exact HL1|apply Qlt_le_weak, Q2pow_pos]. }
    assert (Hm : (2 ^ 52 <= rne t)%Z).
    { pose proof (rne_floor t). pose proof (Qfloor_resp_le _ _ Ht52) as F.
      rewrite Qfloor_Z in F. lia. }
    assert (Hv : (2:Q) ^ L <= v).
    { unfold v. fold t. replace L with (52 + e)%Z at 1 by lia. rewrite Q2pow_plus.
      apply Qmult_le_compat_r; [|lra]. rewrite Q2pow_Z by lia. rewrite <- Zle_Qle. exact Hm. }
    assert (Hh : (2:Q) ^ (-1) <= 2 ^ L) by (apply Q2pow_le; exact HL).
    assert (E : (2:Q) ^ (-1) == 1 # 2) by reflexivity.
    lra.
Qed.

Lemma round_f64_lt_half (q : Q) :
  abs_lt_half (round_f64 q) = true <-> Qabs q < (1 # 2) - 2 ^ (-55).
Proof.
  assert (T55 : (2:Q) ^ (-55) == 1 # 36028797018963968) by reflexivity.
  unfold round_f64. destruct (Qeq_bool q 0) eqn:Hz.
  { apply Qeq_bool_iff in Hz. rewrite Hz. split; intros _; [|reflexivity]. change (Qabs 0) with 0. lra. }
  assert (Hq : ~ q == 0) by (intros C; apply Qeq_bool_iff in C; congruence).
  assert (Hp : 0 < Qabs q).
  { destruct (Qlt_le_dec q 0) as [H|H];
      [rewrite Qabs_neg by lra|rewrite Qabs_pos by exact H]; lra. }
  cbv zeta.
  destruct (round_core (Qabs q) Hp) as [Hv0 Hiff]. cbv zeta in Hiff.
  set (v := inject_Z (rne (Qabs q * 2 ^ (- Z.max (flog2 (Qabs q) - 52) (-1074)))) *
            2 ^ Z.max (flog2 (Qabs q) - 52) (-1074)) in *.
  destruct (Qle_bool (2 ^ 1024) v) eqn:Hov.
  - apply Qle_bool_iff in Hov.
    assert (H1 : (2:Q) ^ 0 <= 2 ^ 1024) by (apply Q2pow_le; lia).
    change ((2:Q) ^ 0) with 1 in H1.
    destruct (Qle_bool 0 q); simpl; (split; [discriminate|]); intros H; exfalso;
      apply Hiff in H; lra.
  - assert (Hav : Qabs v == v) by (apply Qabs_pos; exact Hv0).
    assert (Hao : Qabs (- v) == v) by (rewrite Qabs_opp; exact Hav).
    destruct (Qle_bool 0 q); cbn [abs_lt_half]; rewrite Qltb_iff;
      [rewrite Hav|rewrite Hao]; exact Hiff.
Qed.

End Rounding.

(** The double subtraction moves the strict bound 0.5 on the exact
    difference down to 0.5 - 2^-55: an exact difference in
    [0.5 - 2^-55, 0.5) rounds up to 0.5. *)
Lemma close_to_fin (a q : Q) :
  close_to a (Fin q) = true <-> (Qabs (a - q) < (1 # 2) - 2 ^ (-55))%Q.
Proof. apply round_f64_lt_half. Qed.

Lemma close_from_fin (a q : Q) :
  close_from (Fin q) a = true <-> (Qabs (a - q) < (1 # 2) - 2 ^ (-55))%Q.
Proof.
  unfold close_from. rewrite round_f64_lt_half. rewrite Qabs_Qminus. reflexivity.
Qed.

Lemma close_to_finite (a : Q) (b : num) : close_to a b = true -> exists q, b = Fin q.
Proof. destruct b; simpl; try discriminate. eauto. Qed.

Lemma close_from_finite (a : Q) (b : num) : close_from b a = true -> exists q, b = Fin q.
Proof. destruct b; simpl; try discriminate. eauto. Qed.
Example pt1 : parseTransformToXY "translate(10px, -5px) scale(2)" = (Fin 10, Fin (-5)).
Proof. vm_compute. reflexivity. Qed.
Example pt2 : parseTransformToXY "translate(7px)" = (Fin 7, Fin 0).
Proof. vm_compute. reflexivity. Qed.
Example pt3 : parseTransformToXY "matrix(1, 0, 0, 1, -42.5, 17)" = (Fin (-85 # 2), Fin 17).
Proof. vm_compute. reflexivity. Qed.
Example pt4 : parseTransformToXY "matrix3d(1, 0, 0, 0, 0, 1, 0, 0, 0, 0, 1, 0, 200, -1000, 0)" = (Fin 200, Fin (-1000)).
Proof. vm_compute. reflexivity. Qed.
Example pt5 : parseTransformToXY "matrix3d(1, 0, 0, 0, 0, 1, 0, 0, 0, 0, 1, 0, 200, -1000, 0, 1)" = (Fin 0, Fin 0).
Proof. vm_compute. reflexivity. Qed.
Example pf1 : parseFloat "  -1.5e2px" = Fin (-150).
Proof. vm_compute. reflexivity. Qed.
Example pf2 : parseFloat "1e" = Fin 1.
Proof. vm_compute. reflexivity. Qed.
Example pf3 : parseFloat ".5" = Fin (1#2).
Proof. vm_compute. reflexivity. Qed.

(** ** C1: matrix3d *)

(** C1 (code_bug).  The [matrix3d] regex takes one number and then
    [{14}] more, i.e. 15 arguments: a real 16-argument [matrix3d] string
    is not recognised, falls through to the function scan (which only
    looks at [translate]) and yields (0, 0) instead of its 13th and 14th
    arguments; a 15-argument string is the one that gets read. *)
Theorem matrix3d_16_args_yields_zero :
  parseTransformToXY
    "matrix3d(1, 0, 0, 0, 0, 1, 0, 0, 0, 0, 1, 0, 200, -1000, 0, 1)" = (num0, num0) /\
  parseTransformToXY
    "matrix3d(1, 0, 0, 0, 0, 1, 0, 0, 0, 0, 1, 0, 200, -1000, 0)" = (Fin 200, Fin (-1000)).
Proof. split; vm_compute; reflexivity. Qed.

(** ** C4: geometric matching *)

(** C4 (corrected).  A record and an element's computed geometry match
    (in [findAllCanvasNodesInDom], [saveAllWebviewUrls] and, with the
    operands of the subtraction swapped, in [injectJSForModelClick])
    exactly when all four exact differences are strictly below
    0.5 - 2^-55 in absolute value: the double subtraction rounds an exact
    difference in [0.5 - 2^-55, 0.5) up to 0.5, which fails [< 0.5].  So
    a difference of 0.5 or more is no match, one below 0.5 - 2^-55 is a
    match, and one in between is no match. *)
Theorem geometry_match_iff (n : CanvasNode) (gx gy gw gh : Q) :
  (geom_matches n (Fin gx, Fin gy, Fin gw, Fin gh) = true <->
     ((Qabs (x n - gx) < (1 # 2) - 2 ^ (-55)) /\ (Qabs (y n - gy) < (1 # 2) - 2 ^ (-55)) /\
      (Qabs (width n - gw) < (1 # 2) - 2 ^ (-55)) /\
      (Qabs (height n - gh) < (1 # 2) - 2 ^ (-55)))%Q) /\
  (geom_matches_target (x n) (y n) (width n) (height n) (Fin gx, Fin gy, Fin gw, Fin gh) = true <->
     ((Qabs (x n - gx) < (1 # 2) - 2 ^ (-55)) /\ (Qabs (y n - gy) < (1 # 2) - 2 ^ (-55)) /\
      (Qabs (width n - gw) < (1 # 2) - 2 ^ (-55)) /\
      (Qabs (height n - gh) < (1 # 2) - 2 ^ (-55)))%Q).
Proof.
  split; cbn [geom_matches geom_matches_target]; rewrite !andb_true_iff.
  - rewrite !close_to_fin. tauto.
  - rewrite !close_from_fin. tauto.
Qed.

(** C4 counterexample.  A record at x = 2^-60 (the JSON number
    8.673617379884035e-19) and an element at x = 0.5 differ by
    0.5 - 2^-60 < 0.5, yet the double [node.x - domX] is -0.5: the
    element is not found. *)
Lemma geometry_rounding_counterexample :
  (Qabs (x node_tiny - (1 # 2)) < 1 # 2)%Q /\
  elem_geom el_half = (Fin (1 # 2), Fin 0, Fin 10, Fin 10) /\
  geom_matches node_tiny (elem_geom el_half) = false /\
  findAllCanvasNodesInDom node_tiny [el_half] = [].
Proof. split; [reflexivity|]. split; [|split]; vm_compute; reflexivity. Qed.

(** ** C5: the Backspace guard *)

Lemma existsb_is_chatgpt_false (sel : list SelNode) :
  Forall (fun n => forall u, sel_address n = Some u -> includes u "chatgpt.com" = false) sel ->
  existsb is_chatgpt sel = false.
Proof.
  induction 1 as [|n sel Hn _ IH]; [reflexivity|].
  simpl. rewrite IH, orb_false_r. unfold is_chatgpt.
  destruct (sel_address n) as [u|]; [|reflexivity].
  rewrite (Hn u eq_refl), andb_false_r. reflexivity.
Qed.

(** C5.  When the event is synthetic, is not Backspace, there is no
    selection or an empty one, or no selected node's address
    ([unknownData.url || url]) contains "chatgpt.com", [handleBackspace]
    (both versions) has no effect at all: no [preventDefault], no
    propagation stop, no synthetic key, no timers, no injection. *)
Theorem backspace_guard_no_effect (withDel : bool) (evt : KeyEvent)
    (selection : option (list SelNode)) :
  (isTrusted evt = false \/ key evt <> "Backspace" \/ selection = None \/
   selection = Some [] \/
   (exists sel, selection = Some sel /\
      Forall (fun n => forall u, sel_address n = Some u ->
                                 includes u "chatgpt.com" = false) sel)) ->
  handleBackspace withDel evt selection = [].
Proof.
  unfold handleBackspace. intros H.
  destruct (isTrusted evt) eqn:Ht; [|reflexivity]. simpl.
  destruct (String.eqb (key evt) "Backspace") eqn:Hk; [|reflexivity]. simpl.
  apply String.eqb_eq in Hk.
  destruct H as [H|[H|[H|[H|(sel & Hs & Hall)]]]].
  - congruence.
  - congruence.
  - subst. reflexivity.
  - subst. reflexivity.
  - subst. rewrite (existsb_is_chatgpt_false sel Hall).
    destruct (Nat.eqb (length sel) 0); reflexivity.
Qed.

Lemma backspace_guard_no_effect_witness :
  handleBackspace true (mkKey true "Backspace")
    (Some [mkSel None (Some "https://example.com") 0 0 10 10]) = [].
Proof.
  apply backspace_guard_no_effect.
  right; right; right; right.
  eexists; split; [reflexivity|].
  constructor; [|constructor].
  intros u Hu. simpl in Hu. injection Hu as <-. vm_compute. reflexivity.
Defined.

(** ** C7: parse failure *)

(** C7.  When [JSON.parse] rejects the active canvas file, the pass
    returns before looking at any record: the first-seen set, the DOM and
    the file are untouched and there is no effect (in particular no
    write). *)
Theorem parse_failure_aborts_pass (init : gset string) (w : World) (f : TFile) (raw : string) :
  activeFile w = Some f -> contents f = Unparsable raw ->
  doPollingWork init w = (init, w, []).
Proof.
  intros Hf Hc. unfold doPollingWork. rewrite Hf.
  destruct (negb (String.eqb (extension f) "canvas")); [reflexivity|].
  unfold readCanvasData. rewrite Hc. reflexivity.
Qed.

Lemma parse_failure_aborts_pass_witness :
  let w := mkWorld (Some (mkFile "canvas" (Unparsable "{nodes:"))) [el_created] in
  doPollingWork ∅ w = (∅, w, []).
Proof.
  intros w. apply (parse_failure_aborts_pass ∅ w (mkFile "canvas" (Unparsable "{nodes:")) "{nodes:");
    reflexivity.
Defined.

(** ** C9: matrix *)

(** C9 (code_bug).  The [matrix] regex takes only [[\-\d.]+] arguments,
    so a matrix whose arguments carry an exponent is not recognised.
    Chromium writes the computed transform of an element rotated by 90
    degrees and translated by (200, -1000) as
    "matrix(6.12323e-17, 1, -1, 6.12323e-17, 200, -1000)"; the string
    falls through to the function scan, which only reads [translate],
    and the result is (0, 0) instead of the 5th and 6th arguments
    (200, -1000).  Written without the exponent, the same matrix is
    read correctly. *)
Theorem matrix_exponent_arg_yields_zero :
  parseTransformToXY "matrix(6.12323e-17, 1, -1, 6.12323e-17, 200, -1000)" = (num0, num0) /\
  (parseFloat "200", parseFloat "-1000") = (Fin 200, Fin (-1000)) /\
  parseTransformToXY "matrix(0, 1, -1, 0, 200, -1000)" = (Fin 200, Fin (-1000)).
Proof. split; [|split]; vm_compute; reflexivity. Qed.

(** ** String scanning lemmas *)

(** The first character of [s], if any, fails [p]. *)
Definition stops (p : ascii -> bool) (s : string) : Prop :=
  match s with
  | String c _ => p c = false
  | EmptyString => True
  end.

Lemma span_app (p : ascii -> bool) (a b : string) :
  all_chars p a = true -> stops p b -> span p (String.append a b) = (a, b).
Proof.
  unfold all_chars. induction a as [|c a IH]; simpl; intros Ha Hb.
  - destruct b as [|c t]; simpl in *; [reflexivity|]. rewrite Hb. reflexivity.
  - apply andb_true_iff in Ha as [Hc Ha]. rewrite Hc, IH by assumption. reflexivity.
Qed.

Lemma strip_prefix_app (p s : string) : strip_prefix p (String.append p s) = Some s.
Proof. induction p as [|c p IH]; simpl; [reflexivity|]. rewrite Ascii.eqb_refl. exact IH. Qed.

Lemma num_class_not_ws (c : ascii) : is_num_class c = true -> is_ws c = false.
Proof.
  destruct c as [[] [] [] [] [] [] [] []]; vm_compute; intros H;
    first [reflexivity | discriminate].
Qed.

Lemma plain_number_cons (t : string) :
  plain_number t = true ->
  exists c t', t = String c t' /\ is_num_class c = true /\ all_chars is_num_class t = true.
Proof.
  unfold plain_number, all_chars. destruct t as [|c t']; [discriminate|].
  intros H. simpl in H. exists c, t'. split; [reflexivity|].
  assert (H' := H). apply andb_true_iff in H' as [Hc _]. split; [exact Hc|].
  simpl. exact H.
Qed.

(** White space, then a plain number, then text that cannot continue it. *)
Lemma ws_num_tok (w t r : string) :
  all_chars is_ws w = true -> plain_number t = true -> stops is_num_class r ->
  num_tok (skip_ws (String.append w (String.append t r))) = Some (t, r).
Proof.
  intros Hw Ht Hr.
  destruct (plain_number_cons t Ht) as (c & t' & -> & Hc & Hall).
  unfold skip_ws. rewrite span_app by (simpl; auto using num_class_not_ws).
  simpl. unfold num_tok, span1. rewrite span_app by assumption. reflexivity.
Qed.

Lemma str_app_cons (c : ascii) (a b : string) :
  String.append (String c a) b = String c (String.append a b).
Proof. reflexivity. Qed.

Lemma str_app_assoc (a b c : string) :
  String.append (String.append a b) c = String.append a (String.append b c).
Proof. induction a as [|d a IH]; [reflexivity|]. rewrite !str_app_cons, IH. reflexivity. Qed.

Lemma render_more_stops (more : list (string * string)) (rest : string) :
  stops is_num_class (String.append (render_more more) (String ")"%char rest)).
Proof. destruct more as [|[w t] more]; reflexivity. Qed.

Lemma more_toks_render (more : list (string * string)) (s : string) :
  Forall (fun '(w, t) => all_chars is_ws w = true /\ plain_number t = true) more ->
  stops is_num_class s ->
  more_toks (length more) (String.append (render_more more) s) = Some (map snd more, s).
Proof.
  intros Hall Hs. induction Hall as [|[w t] more [Hw Ht] _ IH]; [reflexivity|].
  cbn [length more_toks render_more].
  rewrite str_app_cons, !str_app_assoc. unfold expect at 1.
  rewrite Ascii.eqb_refl. cbn [mbind option_bind].
  rewrite ws_num_tok; [| assumption | assumption |].
  - cbn [mbind option_bind]. rewrite IH. reflexivity.
  - destruct more as [|[w' t'] more']; [exact Hs | reflexivity].
Qed.

Lemma matrix_exec_text (w1 t1 : string) (more : list (string * string)) (rest : string) :
  all_chars is_ws w1 = true -> plain_number t1 = true -> length more = 5 ->
  Forall (fun '(w, t) => all_chars is_ws w = true /\ plain_number t = true) more ->
  matrix_exec (matrix_text w1 t1 more rest) = Some (t1 :: map snd more).
Proof.
  intros Hw Ht Hlen Hall. unfold matrix_exec, matrix_text.
  rewrite strip_prefix_app. cbn [mbind option_bind].
  rewrite ws_num_tok by (auto using render_more_stops). cbn [mbind option_bind].
  rewrite <- Hlen, more_toks_render by (auto; reflexivity). reflexivity.
Qed.

(** ** Fuel of the function scan *)

Lemma span_length (p : ascii -> bool) (s a b : string) :
  span p s = (a, b) -> String.length a + String.length b = String.length s.
Proof.
  revert a b. induction s as [|c s IH]; simpl; intros a b H.
  - injection H as <- <-. reflexivity.
  - destruct (p c).
    + destruct (span p s) as [a' b'] eqn:E. injection H as <- <-.
      simpl. rewrite (IH a' b' eq_refl). reflexivity.
    + injection H as <- <-. reflexivity.
Qed.

Lemma span1_length (p : ascii -> bool) (s a b : string) :
  span1 p s = Some (a, b) -> String.length b < String.length s.
Proof.
  unfold span1. destruct (span p s) as [a' b'] eqn:E.
  destruct a' as [|c a'']; intros H; [discriminate|].
  injection H as <- <-. apply span_length in E. simpl in E. lia.
Qed.

Lemma expect_length (c : ascii) (s t : string) :
  expect c s = Some t -> String.length t < String.length s.
Proof.
  destruct s as [|d s]; simpl; [discriminate|].
  destruct (Ascii.eqb c d); intros H; [|discriminate]. injection H as <-. lia.
Qed.

Lemma try_call_length (s fn rawArgs rest : string) :
  try_call s = Some (fn, rawArgs, rest) -> String.length rest < String.length s.
Proof.
  unfold try_call.
  destruct (span1 is_word s) as [[fn' s1]|] eqn:E1; cbn [mbind option_bind]; [|discriminate].
  destruct (expect "("%char s1) as [s2|] eqn:E2; cbn [mbind option_bind]; [|discriminate].
  destruct (span1 _ s2) as [[raw s3]|] eqn:E3; cbn [mbind option_bind]; [|discriminate].
  destruct (expect ")"%char s3) as [s4|] eqn:E4; cbn [mbind option_bind]; [|discriminate].
  intros H. injection H as <- <- <-.
  apply span1_length in E1. apply expect_length in E2.
  apply span1_length in E3. apply expect_length in E4. lia.
Qed.

(** Any fuel above the length of the string gives the same calls, so the
    [S (length s)] steps of [parseTransformToXY] never cut the scan short. *)
Lemma calls_fuel (f1 f2 : nat) (s : string) :
  String.length s < f1 -> String.length s < f2 -> calls f1 s = calls f2 s.
Proof.
  revert f2 s. induction f1 as [|f1 IH]; intros f2 s H1 H2; [lia|].
  destruct f2 as [|f2]; [lia|]. simpl.
  destruct (try_call s) as [[[fn raw] rest]|] eqn:E.
  - apply try_call_length in E. f_equal. apply IH; lia.
  - destruct s as [|c t]; [reflexivity|]. simpl in H1, H2. apply IH; lia.
Qed.

Definition scan_step (xy : num * num) (c : string * string) : num * num :=
  if String.eqb (fst c) "translate" then translate_update (snd c) xy else xy.

Lemma scan_calls_fold (f : nat) (s : string) (xy : num * num) :
  scan_calls f s xy = fold_left scan_step (calls f s) xy.
Proof.
  revert s xy. induction f as [|f IH]; intros s xy; [reflexivity|]. simpl.
  destruct (try_call s) as [[[fn raw] rest]|]; [apply IH|].
  destruct s; [reflexivity|]. apply IH.
Qed.

Lemma split_on_nonempty (c : ascii) (s : string) : split_on c s <> [].
Proof.
  destruct s as [|d t]; simpl; [discriminate|].
  destruct (Ascii.eqb c d); [discriminate|]. destruct (split_on c t); discriminate.
Qed.

Lemma translate_update_xy (rawArgs : string) (xy : num * num) :
  translate_update rawArgs xy = translate_xy rawArgs.
Proof.
  unfold translate_update, translate_xy.
  pose proof (split_on_nonempty ","%char rawArgs) as Hne.
  destruct (split_on ","%char rawArgs) as [|p0 [|p1 ps]]; [congruence| |]; reflexivity.
Qed.

Lemma fold_scan_last (cs : list (string * string)) (xy : num * num) :
  fold_left scan_step cs xy =
  match last_translate cs with
  | Some a => translate_xy a
  | None => xy
  end.
Proof.
  revert xy. induction cs as [|[fn raw] cs IH]; intros xy; [reflexivity|].
  simpl. rewrite IH. destruct (last_translate cs); [reflexivity|].
  unfold scan_step. simpl. destruct (String.eqb fn "translate"); [|reflexivity].
  apply translate_update_xy.
Qed.

(** ** C8: chained transforms *)

(** C8.  When the string is not a leading [matrix]/[matrix3d] form and
    the scan finds a [translate] call, the result is the last such call's
    first argument as x and its second argument (or 0 when it has only
    one) as y. *)
Theorem translate_last_call_wins (s rawArgs : string) :
  matrix_exec s = None -> matrix3d_exec s = None ->
  last_translate (calls (S (String.length s)) s) = Some rawArgs ->
  parseTransformToXY s = translate_xy rawArgs.
Proof.
  intros Hm Hm3 Hl. unfold parseTransformToXY.
  destruct (String.eqb s EmptyString || String.eqb s "none")%bool eqn:E.
  - apply orb_true_iff in E as [E|E]; apply String.eqb_eq in E; subst;
      vm_compute in Hl; discriminate.
  - rewrite Hm, Hm3, scan_calls_fold, fold_scan_last, Hl. reflexivity.
Qed.

Lemma translate_last_call_wins_witness :
  parseTransformToXY "translate(10px, -5px) scale(2)" = (Fin 10, Fin (-5)).
Proof.
  rewrite (translate_last_call_wins "translate(10px, -5px) scale(2)" "10px, -5px");
    [vm_compute; reflexivity | reflexivity | reflexivity | vm_compute; reflexivity].
Defined.

(** ** The matrix form *)

(** For every 6-argument [matrix(...)] string whose
    arguments are written with [-], digits and [.] only, separated by [,]
    plus optional white space (optional white space after the opening
    parenthesis too, none before a comma or the closing parenthesis), the
    result is [parseFloat] of the 5th and 6th arguments, negative and
    fractional values included; [""] and ["none"] give (0, 0). *)
Theorem matrix_fifth_sixth (w1 t1 : string) (more : list (string * string)) (rest : string) :
  all_chars is_ws w1 = true -> plain_number t1 = true -> length more = 5 ->
  Forall (fun '(w, t) => all_chars is_ws w = true /\ plain_number t = true) more ->
  parseTransformToXY (matrix_text w1 t1 more rest) =
    (parseFloat (nth 3 (map snd more) EmptyString), parseFloat (nth 4 (map snd more) EmptyString)) /\
  parseTransformToXY EmptyString = (num0, num0) /\
  parseTransformToXY "none" = (num0, num0).
Proof.
  intros Hw Ht Hlen Hall. split; [|split; reflexivity].
  assert (Hne : (String.eqb (matrix_text w1 t1 more rest) EmptyString ||
                 String.eqb (matrix_text w1 t1 more rest) "none")%bool = false)
    by reflexivity.
  unfold parseTransformToXY. rewrite Hne, matrix_exec_text by assumption.
  reflexivity.
Qed.

Lemma matrix_fifth_sixth_witness :
  parseTransformToXY "matrix(1, 0, 0, 1, -42.5, 17)" = (Fin (-85 # 2), Fin 17).
Proof.
  pose proof (matrix_fifth_sixth EmptyString "1"
                [(" ", "0"); (" ", "0"); (" ", "1"); (" ", "-42.5"); (" ", "17")] EmptyString)
    as H.
  destruct H as [H _]; [reflexivity | reflexivity | reflexivity
                       | repeat constructor | exact H].
Defined.

(** ** The polling pass *)

Lemma elem_geom_shape e1 e2 :
  el_shape e1 = el_shape e2 -> elem_geom e1 = elem_geom e2.
Proof.
  destruct e1 as [t1 w1 h1 v1], e2 as [t2 w2 h2 v2]; unfold el_shape; simpl.
  intros H; injection H as -> -> -> _; reflexivity.
Qed.

Lemma find_all_shape n d1 d2 k :
  shape d1 = shape d2 -> find_all_from n d1 k = find_all_from n d2 k.
Proof.
  revert d2 k; induction d1 as [|e1 d1 IH]; intros [|e2 d2] k H;
    unfold shape in H; rewrite ?fmap_nil, ?fmap_cons in H; try discriminate;
    [reflexivity|].
  assert (He : el_shape e1 = el_shape e2) by congruence.
  assert (Hd : shape d1 = shape d2) by (unfold shape; congruence).
  simpl; rewrite (elem_geom_shape e1 e2 He), (IH d2 (S k) Hd); reflexivity.
Qed.

Lemma findAll_shape n d1 d2 :
  shape d1 = shape d2 -> findAllCanvasNodesInDom n d1 = findAllCanvasNodesInDom n d2.
Proof. apply find_all_shape. Qed.

Lemma has_webview_shape d1 d2 k :
  shape d1 = shape d2 -> has_webview d1 k = has_webview d2 k.
Proof.
  intros H.
  assert (Hk : shape d1 !! k = shape d2 !! k) by (rewrite H; reflexivity).
  unfold shape in Hk; rewrite !list_lookup_fmap in Hk; unfold has_webview.
  destruct (d1 !! k) as [[? ? ? [?|]]|], (d2 !! k) as [[? ? ? [?|]]|];
    simpl in *; unfold el_shape in Hk; simpl in Hk; congruence.
Qed.

Lemma wv_matches_shape d1 d2 n :
  shape d1 = shape d2 -> wv_matches d1 n = wv_matches d2 n.
Proof.
  intros H; unfold wv_matches; rewrite (findAll_shape n d1 d2 H).
  apply List.filter_ext; intros k; apply has_webview_shape; exact H.
Qed.

Lemma has_webview_lookup d k :
  has_webview d k = true -> exists el v, d !! k = Some el /\ webview el = Some v.
Proof.
  unfold has_webview; destruct (d !! k) as [el|]; simpl; [|discriminate].
  destruct (webview el) as [v|] eqn:E; [|discriminate]; eauto.
Qed.

Lemma update_src_shape d k v :
  has_webview d k = true -> shape (update_src d k v) = shape d.
Proof.
  intros H; destruct (has_webview_lookup d k H) as (el & u & Hel & Hw).
  unfold update_src, shape; rewrite Hel, list_fmap_insert.
  replace (el_shape (set_src el v)) with (el_shape el)
    by (unfold el_shape, set_src; simpl; rewrite Hw; reflexivity).
  apply list_insert_id; rewrite list_lookup_fmap, Hel; reflexivity.
Qed.

Lemma src_at_update_eq d k v :
  has_webview d k = true -> src_at (update_src d k v) k = v.
Proof.
  intros H; destruct (has_webview_lookup d k H) as (el & u & Hel & Hw).
  unfold update_src, src_at; rewrite Hel.
  rewrite list_lookup_insert_eq by (eapply lookup_lt_Some; exact Hel).
  reflexivity.
Qed.

Lemma src_at_update_ne d k j v :
  j <> k -> src_at (update_src d k v) j = src_at d j.
Proof.
  intros H; unfold update_src; destruct (d !! k); [|reflexivity].
  unfold src_at; rewrite list_lookup_insert_ne by congruence; reflexivity.
Qed.

Lemma find_all_set_lastUrl n u d k :
  find_all_from (set_lastUrl n u) d k = find_all_from n d k.
Proof.
  revert k; induction d as [|el d IH]; intros k; simpl; [reflexivity|].
  rewrite !IH; reflexivity.
Qed.

Lemma wv_matches_set_lastUrl d n u :
  wv_matches d (set_lastUrl n u) = wv_matches d n.
Proof. unfold wv_matches, findAllCanvasNodesInDom; rewrite find_all_set_lastUrl; reflexivity. Qed.

Lemma set_lastUrl_twice n u v :
  set_lastUrl (set_lastUrl n u) v = set_lastUrl n v.
Proof. reflexivity. Qed.

Lemma pushes_app i a b : pushes i (a ++ b) = pushes i a + pushes i b.
Proof. induction a as [|[] a IH]; simpl; rewrite ?IH; lia. Qed.

Lemma has_save_app a b : has_save (a ++ b) = (has_save a || has_save b)%bool.
Proof. unfold has_save; apply existsb_app. Qed.

Lemma grows_refl ps : grows ps ps.
Proof.
  exists []; rewrite app_nil_r; split; [reflexivity|]; split; [reflexivity|].
  split; [set_solver|]; intros i; simpl; lia.
Qed.

Lemma grows_same ps ps' :
  hasInitialized ps' = hasInitialized ps -> effects ps' = effects ps -> grows ps ps'.
Proof.
  intros Hi He; exists []; rewrite app_nil_r, Hi, He; split; [reflexivity|].
  split; [reflexivity|]; split; [set_solver|]; intros i; simpl; lia.
Qed.

Lemma grows_trans ps1 ps2 ps3 : grows ps1 ps2 -> grows ps2 ps3 -> grows ps1 ps3.
Proof.
  intros (n1 & E1 & S1 & I1 & P1) (n2 & E2 & S2 & I2 & P2).
  exists (n1 ++ n2); rewrite E2, E1, app_assoc; split; [reflexivity|].
  rewrite has_save_app, S1, S2; split; [reflexivity|].
  split; [set_solver|].
  intros i; rewrite pushes_app; specialize (P1 i); specialize (P2 i); lia.
Qed.

Ltac ind_cases :=
  unfold ind; repeat case_decide; first [lia | exfalso; set_solver].

Lemma grows_first_sight ps (i0 : string) d ch new :
  i0 ∉ hasInitialized ps -> has_save new = false ->
  pushes i0 new <= 1 -> (forall i, i <> i0 -> pushes i new = 0) ->
  grows ps (mkPS ({[i0]} ∪ hasInitialized ps) d ch (effects ps ++ new)).
Proof.
  intros Hin Hs H1 H0; exists new; simpl; split; [reflexivity|].
  split; [exact Hs|]; split; [set_solver|].
  intros i; destruct (decide (i = i0)) as [->|Hne].
  - ind_cases.
  - rewrite (H0 i Hne); ind_cases.
Qed.

Lemma one_time_init_props ps n k :
  has_webview (ps_dom ps) k = true ->
  shape (ps_dom (one_time_init ps n k)) = shape (ps_dom ps) /\
  (forall j, j <> k -> src_at (ps_dom (one_time_init ps n k)) j = src_at (ps_dom ps) j) /\
  id n ∈ hasInitialized (one_time_init ps n k) /\
  changed (one_time_init ps n k) = changed ps /\
  grows ps (one_time_init ps n k).
Proof.
  intros Hw; unfold one_time_init; case_decide as Hin.
  { split; [reflexivity|]; split; [reflexivity|]; split; [exact Hin|].
    split; [reflexivity|]; apply grows_refl. }
  assert (Hnil : grows ps (mkPS ({[id n]} ∪ hasInitialized ps) (ps_dom ps) (changed ps)
                                (effects ps))).
  { pose proof (grows_first_sight ps (id n) (ps_dom ps) (changed ps) [] Hin eq_refl
                  ltac:(simpl; lia) (fun _ _ => eq_refl)) as G.
    rewrite app_nil_r in G; exact G. }
  destruct (lastUrl n) as [u|]; [destruct (negb (String.eqb (trim u) EmptyString))|];
    simpl; (split; [try apply update_src_shape; try reflexivity; exact Hw|]);
    (split; [intros j Hj; try apply src_at_update_ne; try reflexivity; exact Hj|]);
    (split; [set_solver|]); (split; [reflexivity|]); try exact Hnil.
  apply grows_first_sight; [exact Hin|reflexivity| |].
  - simpl; rewrite String.eqb_refl; lia.
  - intros i Hi; simpl; apply String.eqb_neq in Hi; rewrite Hi; reflexivity.
Qed.

Lemma read_back_props ps n k ps' n' :
  read_back ps n k = (ps', n') ->
  ps_dom ps' = ps_dom ps /\ hasInitialized ps' = hasInitialized ps /\
  effects ps' = effects ps /\
  lastUrl n' = Some (src_at (ps_dom ps) k) /\
  (n' = n \/ n' = set_lastUrl n (src_at (ps_dom ps) k)) /\
  (changed ps' = false -> changed ps = false /\ n' = n) /\
  (changed ps = false -> n' = n -> changed ps' = false).
Proof.
  unfold read_back; case_decide as E; intros Hr; injection Hr as <- <-; simpl.
  - do 4 (split; [first [reflexivity | exact E]|]); split; [left; reflexivity|].
    split; [intros H; split; [exact H|reflexivity]|intros H _; exact H].
  - do 4 (split; [reflexivity|]); split; [right; reflexivity|].
    split; [discriminate|intros _ Heq; exfalso].
    apply E; rewrite <- Heq; reflexivity.
Qed.

Lemma visit_props ps n k ps' n' :
  visit_element (ps, n) k = (ps', n') ->
  shape (ps_dom ps') = shape (ps_dom ps) /\ grows ps ps' /\
  ((has_webview (ps_dom ps) k = false /\ ps' = ps /\ n' = n) \/
   (has_webview (ps_dom ps) k = true /\
    (forall j, j <> k -> src_at (ps_dom ps') j = src_at (ps_dom ps) j) /\
    id n ∈ hasInitialized ps' /\
    lastUrl n' = Some (src_at (ps_dom ps') k) /\
    (n' = n \/ n' = set_lastUrl n (src_at (ps_dom ps') k)) /\
    (changed ps' = false -> changed ps = false /\ n' = n) /\
    (changed ps = false -> n' = n -> changed ps' = false))).
Proof.
  unfold visit_element; destruct (has_webview (ps_dom ps) k) eqn:Hw; simpl.
  2:{ intros Hr; injection Hr as <- <-.
      split; [reflexivity|]; split; [apply grows_refl|]; left; auto. }
  intros Hr.
  destruct (one_time_init_props ps n k Hw) as (Hs & Hsrc & Hid & Hch & Hg).
  destruct (read_back_props _ _ _ _ _ Hr) as (Hd & Hi & He & Hl & Hn & Hc).
  rewrite Hd; split; [exact Hs|]; split.
  { eapply grows_trans; [exact Hg|]; apply grows_same; assumption. }
  right; split; [reflexivity|]; split; [exact Hsrc|]; split; [rewrite Hi; exact Hid|].
  split; [exact Hl|]; split; [exact Hn|]; rewrite Hch in Hc; exact Hc.
Qed.

(** A record whose id has been seen and which stores what its view
    shows is left alone by a visit. *)
Lemma visit_settled ps n k :
  id n ∈ hasInitialized ps -> lastUrl n = Some (src_at (ps_dom ps) k) ->
  visit_element (ps, n) k = (ps, n).
Proof.
  intros Hin Hl; unfold visit_element.
  destruct (has_webview (ps_dom ps) k); simpl; [|reflexivity].
  unfold one_time_init; rewrite decide_True by exact Hin.
  unfold read_back; rewrite decide_True by exact Hl; reflexivity.
Qed.

Lemma fold_none ks ps n :
  List.filter (has_webview (ps_dom ps)) ks = [] ->
  fold_left visit_element ks (ps, n) = (ps, n).
Proof.
  induction ks as [|k ks IH]; simpl; [reflexivity|].
  destruct (has_webview (ps_dom ps) k) eqn:Hw; [discriminate|].
  intros H; simpl; exact (IH H).
Qed.

Lemma fold_single ks k ps n :
  List.filter (has_webview (ps_dom ps)) ks = [k] ->
  fold_left visit_element ks (ps, n) = visit_element (ps, n) k.
Proof.
  induction ks as [|k0 ks IH]; intros H; [discriminate|].
  cbn [fold_left]; cbn [List.filter] in H.
  destruct (has_webview (ps_dom ps) k0) eqn:Hw.
  - injection H as -> Hnil.
    destruct (visit_element (ps, n) k) as [ps1 n1] eqn:Hv.
    destruct (visit_props _ _ _ _ _ Hv) as (Hs & _).
    apply fold_none; rewrite <- Hnil; apply List.filter_ext.
    intros j; apply has_webview_shape; exact Hs.
  - replace (visit_element (ps, n) k0) with (ps, n)
      by (unfold visit_element; rewrite Hw; reflexivity).
    exact (IH H).
Qed.

Lemma fold_props ks : forall ps n ps' n',
  fold_left visit_element ks (ps, n) = (ps', n') ->
  shape (ps_dom ps') = shape (ps_dom ps) /\ grows ps ps' /\
  (n' = n \/ exists k u, In k ks /\ has_webview (ps_dom ps) k = true /\ n' = set_lastUrl n u).
Proof.
  induction ks as [|k ks IH]; intros ps n ps' n' H.
  { injection H as <- <-; split; [reflexivity|]; split; [apply grows_refl|]; left; reflexivity. }
  cbn [fold_left] in H.
  destruct (visit_element (ps, n) k) as [ps1 n1] eqn:Hv.
  destruct (IH _ _ _ _ H) as (Hs2 & Hg2 & Hn2).
  destruct (visit_props _ _ _ _ _ Hv) as (Hs1 & Hg1 & Hcase).
  split; [congruence|]; split; [eapply grows_trans; eassumption|].
  assert (Hn1 : n1 = n \/ exists u, has_webview (ps_dom ps) k = true /\ n1 = set_lastUrl n u).
  { destruct Hcase as [(_ & _ & ->)|(Hw & _ & _ & _ & [->| ->] & _)]; [left; reflexivity..|].
    right; eexists; split; [exact Hw|reflexivity]. }
  destruct Hn2 as [->|(k' & u & Hin & Hw' & ->)].
  - destruct Hn1 as [->|(u & Hw & ->)]; [left; reflexivity|].
    right; exists k, u; split; [left; reflexivity|]; split; [exact Hw|reflexivity].
  - rewrite (has_webview_shape _ _ k' Hs1) in Hw'.
    right; exists k'.
    destruct Hn1 as [->|(u1 & _ & ->)]; exists u;
      (split; [right; exact Hin|]); (split; [exact Hw'|reflexivity]).
Qed.

Lemma frame_rel_shape d1 d2 n n' :
  shape d1 = shape d2 -> frame_rel d1 n n' -> frame_rel d2 n n'.
Proof.
  intros Hs [H|(Ht & (k & Hk & Hw) & Hu)]; [left; exact H|right].
  rewrite (findAll_shape n d1 d2 Hs), (has_webview_shape d1 d2 k Hs) in *.
  split; [exact Ht|]; split; [exists k; split; assumption|exact Hu].
Qed.

Lemma process_node_props ps n ps' n' :
  process_node ps n = (ps', n') ->
  shape (ps_dom ps') = shape (ps_dom ps) /\ grows ps ps' /\ frame_rel (ps_dom ps) n n'.
Proof.
  unfold process_node; destruct (String.eqb_spec (type n) "link") as [Ht|Ht].
  - intros H; destruct (fold_props _ _ _ _ _ H) as (Hs & Hg & Hn).
    split; [exact Hs|]; split; [exact Hg|].
    destruct Hn as [->|(k & u & Hk & Hw & ->)]; [left; reflexivity|].
    right; split; [exact Ht|]; split; [exists k; split; assumption|exists u; reflexivity].
  - intros H; injection H as <- <-.
    split; [reflexivity|]; split; [apply grows_refl|left; reflexivity].
Qed.

Lemma process_nodes_props ns : forall ps ps' ns',
  process_nodes ps ns = (ps', ns') ->
  shape (ps_dom ps') = shape (ps_dom ps) /\ grows ps ps' /\
  Forall2 (frame_rel (ps_dom ps)) ns ns'.
Proof.
  induction ns as [|n ns IH]; intros ps ps' ns' H; simpl in H.
  { injection H as <- <-; split; [reflexivity|]; split; [apply grows_refl|constructor]. }
  destruct (process_node ps n) as [ps1 n1] eqn:H1.
  destruct (process_nodes ps1 ns) as [ps2 ns2] eqn:H2.
  injection H as <- <-.
  destruct (process_node_props _ _ _ _ H1) as (Hs1 & Hg1 & Hf1).
  destruct (IH _ _ _ H2) as (Hs2 & Hg2 & Hf2).
  split; [congruence|]; split; [eapply grows_trans; eassumption|].
  constructor; [exact Hf1|].
  eapply Forall2_impl; [exact Hf2|]; intros a b; apply frame_rel_shape; exact Hs1.
Qed.

Lemma ind_le_1 i s : ind i s <= 1.
Proof. unfold ind; case_decide; lia. Qed.

Lemma ind_p_le_1 i p : ind_p i p <= 1.
Proof. destruct p; simpl; [apply ind_le_1|lia]. Qed.

Lemma ind_empty i : ind i ∅ = 0.
Proof. unfold ind; case_decide; [set_solver|reflexivity]. Qed.

(** One pass pushes an id only if it was not yet in [hasInitialized], and
    then adds it. *)
Lemma pass_pushes init w i :
  pushes i (snd (doPollingWork init w)) + ind i init <= ind i (fst (fst (doPollingWork init w))).
Proof.
  unfold doPollingWork.
  destruct (activeFile w) as [f|]; [|simpl; lia].
  destruct (negb (String.eqb (extension f) "canvas")); [simpl; lia|].
  destruct (readCanvasData f) as [d|]; [|simpl; lia].
  destruct (process_nodes (mkPS init (dom w) false []) (nodes d)) as [ps ns'] eqn:Hp.
  destruct (process_nodes_props _ _ _ _ Hp) as (_ & (new & E & _ & _ & P) & _).
  specialize (P i); simpl in E, P.
  destruct (changed ps); simpl; rewrite ?pushes_app, E; simpl; lia.
Qed.

Lemma run_events_pushes es : forall p i,
  pushes i (snd (run_events p es)) + ind_p i p <= loads es + 1.
Proof.
  induction es as [|e es IH]; intros p i; simpl.
  { pose proof (ind_p_le_1 i p); lia. }
  destruct e as [| |w]; simpl.
  - destruct (run_events (Some ∅) es) as [p2 effs2] eqn:Hr.
    specialize (IH (Some ∅) i); rewrite Hr in IH; simpl in IH |- *.
    rewrite ind_empty in IH; pose proof (ind_p_le_1 i p); lia.
  - destruct (run_events None es) as [p2 effs2] eqn:Hr.
    specialize (IH None i); rewrite Hr in IH; simpl in IH |- *.
    pose proof (ind_p_le_1 i p); lia.
  - destruct p as [s|].
    + pose proof (pass_pushes s w i) as Hpass.
      destruct (doPollingWork s w) as [[s' w'] effs] eqn:Hd; simpl in Hpass.
      destruct (run_events (Some s') es) as [p2 effs2] eqn:Hr.
      specialize (IH (Some s') i); rewrite Hr in IH; simpl in IH |- *.
      rewrite pushes_app; lia.
    + destruct (run_events None es) as [p2 effs2] eqn:Hr.
      specialize (IH None i); rewrite Hr in IH; simpl in IH |- *; lia.
Qed.

(** Claim C3 (corrected).  The first-seen set [hasInitialized] belongs to
    the [CanvasPolling] instance, which [onload] creates afresh: starting
    from an unloaded plugin, over any sequence of loads, unloads and
    passes (with any DOM and document at each pass), the stored address
    of a record id is pushed into a view at most once per plugin load. *)
Theorem push_at_most_once_per_load (es : list event) (i : string) :
  pushes i (snd (run_events None es)) <= loads es.
Proof. pose proof (run_events_pushes es None i) as H; simpl in H; lia. Qed.

(** Claim C3: a plugin reload (unload, then load again) within one
    process pushes the same stored address a second time. *)
Lemma push_again_after_reload :
  pushes "n" (snd (run_events None
    [PluginLoad; IntervalTick world_stored; PluginUnload; PluginLoad;
     IntervalTick world_stored])) = 2.
Proof. vm_compute; reflexivity. Qed.

Lemma Forall2_frame_refl {A} (R : A -> A -> Prop) (l : list A) :
  (forall a, R a a) -> Forall2 R l l.
Proof. intros HR; induction l; constructor; auto. Qed.

Lemma pass_frame init w f d :
  activeFile w = Some f -> contents f = Json d ->
  exists d', activeFile (snd (fst (doPollingWork init w))) = Some (mkFile (extension f) (Json d')) /\
             edges d' = edges d /\ Forall2 (frame_rel (dom w)) (nodes d) (nodes d').
Proof.
  intros Hf Hc.
  assert (Hunch : exists d', Some f = Some (mkFile (extension f) (Json d')) /\
                   edges d' = edges d /\ Forall2 (frame_rel (dom w)) (nodes d) (nodes d')).
  { exists d; destruct f as [ext c]; simpl in Hc |- *; subst c.
    split; [reflexivity|]; split; [reflexivity|].
    apply Forall2_frame_refl; intros a; left; reflexivity. }
  unfold doPollingWork; rewrite Hf.
  destruct (negb (String.eqb (extension f) "canvas")); [simpl; rewrite Hf; exact Hunch|].
  unfold readCanvasData; rewrite Hc.
  destruct (process_nodes (mkPS init (dom w) false []) (nodes d)) as [ps ns'] eqn:Hp.
  destruct (process_nodes_props _ _ _ _ Hp) as (_ & _ & Hfr); simpl in Hfr.
  destruct (changed ps); simpl; [|exact Hunch].
  exists (mkData ns' (edges d)); split; [reflexivity|]; split; [reflexivity|exact Hfr].
Qed.

Lemma set_url_twice n u v : set_url (set_url n u) v = set_url n v.
Proof. reflexivity. Qed.

Lemma save_loop_frame dom0 ns0 els : forall ns chg,
  Forall (fun el => In el dom0) els ->
  Forall2 (frame_rel_url dom0) ns0 ns ->
  Forall2 (frame_rel_url dom0) ns0 (fst (save_loop els ns chg)).
Proof.
  induction els as [|el els IH]; intros ns chg Hels Hns; simpl; [exact Hns|].
  inversion Hels as [|? ? Hel Hrest]; subst.
  destruct (webview el) as [src|] eqn:Hw; [|apply IH; assumption].
  destruct (list_find (link_matching (elem_geom el)) ns) as [[i found]|] eqn:Hfind;
    [|apply IH; assumption].
  destruct (decide (url found = Some src)); [apply IH; assumption|].
  apply IH; [exact Hrest|].
  apply list_find_Some in Hfind as (Hi & (Ht & Hg) & _).
  destruct (Forall2_lookup_r _ _ _ _ _ Hns Hi) as (n0 & Hi0 & Hr).
  rewrite <- (list_insert_id ns0 i n0 Hi0).
  apply Forall2_insert; [exact Hns|].
  right.
  assert (Hsame : type found = type n0 /\ geom_matches found (elem_geom el) = geom_matches n0 (elem_geom el)
                  /\ (exists u, set_url found src = set_url n0 u)).
  { destruct Hr as [->|(_ & _ & u & ->)]; [split; [reflexivity|]; split; [reflexivity|]; eauto|].
    split; [reflexivity|]; split; [reflexivity|]; eauto. }
  destruct Hsame as (Ht0 & Hg0 & Hu).
  split; [congruence|]; split; [|destruct Hu as (u & Hu); exists u; exact Hu].
  exists el; split; [exact Hel|]; split; [congruence|congruence].
Qed.

Lemma save_frame w f d :
  activeFile w = Some f -> contents f = Json d ->
  exists d', activeFile (fst (saveAllWebviewUrls w)) = Some (mkFile (extension f) (Json d')) /\
             edges d' = edges d /\ Forall2 (frame_rel_url (dom w)) (nodes d) (nodes d').
Proof.
  intros Hf Hc.
  assert (Hunch : exists d', Some f = Some (mkFile (extension f) (Json d')) /\
                   edges d' = edges d /\ Forall2 (frame_rel_url (dom w)) (nodes d) (nodes d')).
  { exists d; destruct f as [ext c]; simpl in Hc |- *; subst c.
    split; [reflexivity|]; split; [reflexivity|].
    apply Forall2_frame_refl; intros a; left; reflexivity. }
  unfold saveAllWebviewUrls; rewrite Hf.
  destruct (negb (String.eqb (extension f) "canvas")); [simpl; rewrite Hf; exact Hunch|].
  unfold readCanvasData; rewrite Hc.
  destruct (dom w) as [|el0 els0] eqn:Hd; [simpl; rewrite Hf; exact Hunch|].
  pose proof (save_loop_frame (dom w) (nodes d) (dom w) (nodes d) false) as Hl.
  rewrite Hd in Hl.
  destruct (save_loop (el0 :: els0) (nodes d) false) as [ns' chg] eqn:Hs; simpl in Hl.
  destruct chg; simpl; [|rewrite Hf; exact Hunch].
  exists (mkData ns' (edges d)); split; [reflexivity|]; split; [reflexivity|].
  apply Hl.
  - apply List.Forall_forall; intros x Hx; exact Hx.
  - apply Forall2_frame_refl; intros a; left; reflexivity.
Qed.

(** Claim C10 (corrected).  A polling pass ([doPollingWork]) leaves the
    edges alone and changes a record only in [lastUrl], and only if it is
    a link record with a matching element that has a [<webview>]; every
    other field ([id], [type], [url], geometry, extension fields) is kept.
    [saveAllWebviewUrls] keeps the same frame except that the field it
    writes is [url], not [lastUrl]. *)
Theorem pass_changes_only_address_field init w f d :
  activeFile w = Some f -> contents f = Json d ->
  (exists d', activeFile (snd (fst (doPollingWork init w))) = Some (mkFile (extension f) (Json d')) /\
              edges d' = edges d /\ Forall2 (frame_rel (dom w)) (nodes d) (nodes d')) /\
  (exists d', activeFile (fst (saveAllWebviewUrls w)) = Some (mkFile (extension f) (Json d')) /\
              edges d' = edges d /\ Forall2 (frame_rel_url (dom w)) (nodes d) (nodes d')).
Proof.
  intros Hf Hc; split; [apply pass_frame|apply save_frame]; assumption.
Qed.

Lemma pass_changes_only_address_field_witness :
  activeFile world_dup = Some (mkFile "canvas" (Json (mkData [node_dup] []))) /\
  contents (mkFile "canvas" (Json (mkData [node_dup] []))) = Json (mkData [node_dup] []) /\
  ((exists d', activeFile (snd (fst (doPollingWork ∅ world_dup))) =
                 Some (mkFile "canvas" (Json d')) /\
               edges d' = [] /\ Forall2 (frame_rel (dom world_dup)) [node_dup] (nodes d')) /\
   (exists d', activeFile (fst (saveAllWebviewUrls world_dup)) =
                 Some (mkFile "canvas" (Json d')) /\
               edges d' = [] /\ Forall2 (frame_rel_url (dom world_dup)) [node_dup] (nodes d'))).
Proof.
  split; [reflexivity|]; split; [reflexivity|].
  exact (pass_changes_only_address_field ∅ world_dup
           (mkFile "canvas" (Json (mkData [node_dup] []))) (mkData [node_dup] [])
           eq_refl eq_refl).
Defined.

(** Claim C10: [saveAllWebviewUrls], one of the passes the claim covers,
    rewrites the [url] field of a link record. *)
Lemma save_pass_rewrites_url :
  activeFile (fst (saveAllWebviewUrls world_dup)) =
    Some (mkFile "canvas" (Json (mkData [set_url node_dup "b"] []))) /\
  url (set_url node_dup "b") <> url node_dup.
Proof. split; [vm_compute; reflexivity|discriminate]. Qed.

Lemma exclusive_shape d1 d2 ns : shape d1 = shape d2 ->
  forall used, exclusive used ns d1 = exclusive used ns d2.
Proof.
  intros H; induction ns as [|n ns IH]; intros used; simpl; [reflexivity|].
  rewrite (wv_matches_shape d1 d2 n H).
  destruct (String.eqb (type n) "link"); [destruct (wv_matches d2 n) as [|k [|]]|];
    rewrite ?IH; reflexivity.
Qed.

Lemma in_wv_matches_webview d n k :
  In k (wv_matches d n) -> has_webview d k = true.
Proof. unfold wv_matches; intros H; apply filter_In in H as [_ H]; exact H. Qed.

(** The records a pass leaves alone. *)
Lemma process_nodes_settled ns : forall ps,
  Forall (settled (hasInitialized ps) (ps_dom ps)) ns ->
  process_nodes ps ns = (ps, ns).
Proof.
  induction ns as [|n ns IH]; intros ps HF; simpl; [reflexivity|].
  inversion HF as [|? ? Hn Hrest]; subst.
  assert (H1 : process_node ps n = (ps, n)).
  { unfold process_node.
    destruct (String.eqb_spec (type n) "link") as [Ht|_]; [|reflexivity].
    specialize (Hn Ht).
    destruct (wv_matches (ps_dom ps) n) as [|k [|]] eqn:Hwv.
    - apply fold_none; exact Hwv.
    - rewrite (fold_single _ k _ _ Hwv); destruct Hn as [Hid Hl].
      apply visit_settled; assumption.
    - contradiction. }
  rewrite H1, (IH ps Hrest); reflexivity.
Qed.

Lemma not_in_used k used j :
  negb (existsb (Nat.eqb k) used) = true -> In j used -> j <> k.
Proof.
  intros Hk Hj Hjk; subst j; apply negb_true_iff in Hk.
  assert (existsb (Nat.eqb k) used = true)
    by (apply existsb_exists; exists k; split; [exact Hj|apply Nat.eqb_refl]).
  congruence.
Qed.

(** Under [exclusive], a pass leaves every record settled, and it sets
    [changed] exactly when some record ends up different. *)
Lemma pass1_settles ns : forall ps used ps' ns',
  exclusive used ns (ps_dom ps) = true ->
  process_nodes ps ns = (ps', ns') ->
  Forall (settled (hasInitialized ps') (ps_dom ps')) ns' /\
  (forall j, In j used -> src_at (ps_dom ps') j = src_at (ps_dom ps) j) /\
  (changed ps' = false -> changed ps = false /\ ns' = ns) /\
  (changed ps = false -> ns' = ns -> changed ps' = false).
Proof.
  induction ns as [|n ns IH]; intros ps used ps' ns' Hx Hp; cbn [exclusive] in Hx;
    simpl in Hp.
  { injection Hp as <- <-; split; [constructor|]; split; [reflexivity|].
    split; [intros H; split; [exact H|reflexivity]|intros H _; exact H]. }
  destruct (process_node ps n) as [ps1 n1] eqn:H1.
  destruct (process_nodes ps1 ns) as [ps2 ns2] eqn:H2.
  injection Hp as <- <-.
  destruct (process_node_props _ _ _ _ H1) as (Hs1 & _).
  destruct (process_nodes_props _ _ _ _ H2) as (Hs2 & (? & _ & _ & Hsub2 & _) & _).
  assert (Hhead : exists used',
    exclusive used' ns (ps_dom ps1) = true /\
    (forall j, In j used -> In j used') /\
    (forall j, In j used -> src_at (ps_dom ps1) j = src_at (ps_dom ps) j) /\
    (forall init' d', shape d' = shape (ps_dom ps1) -> hasInitialized ps1 ⊆ init' ->
       (forall j, In j used' -> src_at d' j = src_at (ps_dom ps1) j) ->
       settled init' d' n1) /\
    (changed ps1 = false -> changed ps = false /\ n1 = n) /\
    (changed ps = false -> n1 = n -> changed ps1 = false)).
  { unfold process_node in H1.
    destruct (String.eqb_spec (type n) "link") as [Ht|Ht].
    - destruct (wv_matches (ps_dom ps) n) as [|k [|k' l]] eqn:Hwv; [| |discriminate].
      + rewrite fold_none in H1 by exact Hwv; injection H1 as <- <-.
        exists used; split; [exact Hx|]; split; [tauto|]; split; [reflexivity|].
        split; [|split; [intros H; split; [exact H|reflexivity]|intros H _; exact H]].
        intros init' d' Hs _ _ _; rewrite (wv_matches_shape d' (ps_dom ps) n Hs), Hwv.
        exact I.
      + apply andb_true_iff in Hx as [Hk Hx].
        rewrite (fold_single _ k _ _ Hwv) in H1.
        assert (Hw : has_webview (ps_dom ps) k = true)
          by (apply (in_wv_matches_webview _ n); rewrite Hwv; left; reflexivity).
        destruct (visit_props _ _ _ _ _ H1)
          as (Hs & _ & [(Hw0 & _)|(_ & Hsrc & Hid & Hl & Hn & Hc1 & Hc2)]);
          [congruence|].
        exists (k :: used); split; [rewrite (exclusive_shape _ _ _ Hs); exact Hx|].
        split; [intros j Hj; right; exact Hj|].
        split; [intros j Hj; apply Hsrc; exact (not_in_used k used j Hk Hj)|].
        split; [|split; assumption].
        assert (Hn1 : type n1 = type n /\ id n1 = id n /\
                      forall d, wv_matches d n1 = wv_matches d n)
          by (destruct Hn as [->| ->]; repeat split; intros;
              first [reflexivity | apply wv_matches_set_lastUrl]).
        destruct Hn1 as (Ht1 & Hid1 & Hwv1).
        intros init' d' Hs' Hsub Hsrc' _.
        rewrite Hwv1, (wv_matches_shape d' (ps_dom ps) n ltac:(congruence)), Hwv.
        split; [rewrite Hid1; set_solver|].
        rewrite Hl, (Hsrc' k (or_introl eq_refl)); reflexivity.
    - injection H1 as <- <-.
      exists used; split; [exact Hx|]; split; [tauto|]; split; [reflexivity|].
      split; [intros init' d' _ _ _ Ht''; contradiction|].
      split; [intros H; split; [exact H|reflexivity]|intros H _; exact H]. }
  destruct Hhead as (used' & Hx' & Hu & Hsrc1 & Hset & Hc1 & Hc2).
  destruct (IH _ _ _ _ Hx' H2) as (HF & Hsrc2 & Hc1' & Hc2').
  split; [constructor; [apply Hset; assumption|exact HF]|].
  split; [intros j Hj; rewrite (Hsrc2 j (Hu j Hj)); apply Hsrc1; exact Hj|].
  split.
  - intros H; destruct (Hc1' H) as [H' ->]; destruct (Hc1 H') as [? ->]; split; auto.
  - intros H Heq; injection Heq as -> ->; apply Hc2'; [apply Hc2; auto|reflexivity].
Qed.

Lemma pass_quiet init w :
  (forall f d, activeFile w = Some f -> readCanvasData f = Some d ->
               Forall (settled init (dom w)) (nodes d)) ->
  snd (doPollingWork init w) = [].
Proof.
  intros H; unfold doPollingWork.
  destruct (activeFile w) as [f|] eqn:Hf; [|reflexivity].
  destruct (negb (String.eqb (extension f) "canvas")); [reflexivity|].
  destruct (readCanvasData f) as [d|] eqn:Hr; [|reflexivity].
  rewrite (process_nodes_settled (nodes d) (mkPS init (dom w) false []) (H f d eq_refl Hr)).
  reflexivity.
Qed.

Lemma readCanvasData_contents f d : readCanvasData f = Some d -> contents f = Json d.
Proof. unfold readCanvasData; destruct (contents f); congruence. Qed.

(** Claim C2 (corrected).  When every link record matches at most one
    element with a view and no such element matches two link records,
    a pass writes the document exactly when the document it leaves
    differs from the one it read, and a second pass with no change in
    between writes nothing (and pushes nothing). *)
Theorem second_pass_writes_nothing init w :
  exclusive_world w = true ->
  (has_save (snd (doPollingWork init w)) = true <->
   activeFile (snd (fst (doPollingWork init w))) <> activeFile w) /\
  snd (doPollingWork (fst (fst (doPollingWork init w))) (snd (fst (doPollingWork init w)))) = [].
Proof.
  intros Hx.
  assert (Hskip : doPollingWork init w = (init, w, []) ->
    (has_save (snd (doPollingWork init w)) = true <->
     activeFile (snd (fst (doPollingWork init w))) <> activeFile w) /\
    snd (doPollingWork (fst (fst (doPollingWork init w))) (snd (fst (doPollingWork init w)))) = []).
  { intros E; rewrite E; simpl; rewrite E; simpl.
    split; [split; [discriminate|intros C; exfalso; apply C; reflexivity]|reflexivity]. }
  unfold exclusive_world in Hx.
  destruct (activeFile w) as [f|] eqn:Hf;
    [|apply Hskip; unfold doPollingWork; rewrite Hf; reflexivity].
  destruct (String.eqb (extension f) "canvas") eqn:He;
    [|apply Hskip; unfold doPollingWork; rewrite Hf, He; reflexivity].
  destruct (readCanvasData f) as [d|] eqn:Hr;
    [|apply Hskip; unfold doPollingWork; rewrite Hf, He, Hr; reflexivity].
  pose proof (readCanvasData_contents f d Hr) as Hc.
  destruct (process_nodes (mkPS init (dom w) false []) (nodes d)) as [ps ns'] eqn:Hp.
  destruct (pass1_settles (nodes d) (mkPS init (dom w) false []) [] ps ns' Hx Hp)
    as (HF & _ & Hc1 & Hc2); simpl in Hc1, Hc2.
  destruct (process_nodes_props _ _ _ _ Hp) as (_ & (new & E & S & _) & _); simpl in E.
  assert (Hout : doPollingWork init w =
    if changed ps then
      (hasInitialized ps,
       mkWorld (Some (mkFile (extension f) (Json (mkData ns' (edges d))))) (ps_dom ps),
       effects ps ++ [Save (mkData ns' (edges d))])
    else (hasInitialized ps, mkWorld (Some f) (ps_dom ps), effects ps)).
  { unfold doPollingWork; rewrite Hf, He, Hr, Hp; reflexivity. }
  rewrite Hout.
  destruct (changed ps) eqn:Hch; simpl.
  - split.
    + split; [intros _ Heq|intros _; rewrite has_save_app; apply orb_true_r].
      assert (Hns : ns' = nodes d).
      { apply (f_equal (fun o => match o with Some g => contents g | None => contents f end)) in Heq.
        simpl in Heq; rewrite Hc in Heq; injection Heq as Hd; rewrite <- Hd; reflexivity. }
      discriminate (Hc2 eq_refl Hns).
    + apply pass_quiet; intros f' d' Hf' Hr'; simpl in Hf'; injection Hf' as <-.
      simpl in Hr'; injection Hr' as <-; exact HF.
  - destruct (Hc1 eq_refl) as [_ Hns].
    split.
    + rewrite E; simpl; rewrite S.
      split; [discriminate|intros C; exfalso; apply C; reflexivity].
    + apply pass_quiet; intros f' d' Hf' Hr'; simpl in Hf'; injection Hf' as <-.
      rewrite Hr in Hr'; injection Hr' as <-; simpl; rewrite <- Hns; exact HF.
Qed.

Lemma second_pass_writes_nothing_witness :
  exclusive_world world_stored = true /\
  (has_save (snd (doPollingWork ∅ world_stored)) = true <->
   activeFile (snd (fst (doPollingWork ∅ world_stored))) <> activeFile world_stored) /\
  snd (doPollingWork (fst (fst (doPollingWork ∅ world_stored)))
                     (snd (fst (doPollingWork ∅ world_stored)))) = [].
Proof.
  split; [vm_compute; reflexivity|].
  apply (second_pass_writes_nothing ∅ world_stored); vm_compute; reflexivity.
Defined.

(** Claim C2: two link records stacked at one geometry, with views showing
    different addresses.  The second pass, with nothing changed in
    between, writes the document again, and what it writes is what the
    first pass left. *)
Lemma second_pass_writes_again :
  has_save (snd (doPollingWork (fst (fst (doPollingWork ∅ world_pair)))
                               (snd (fst (doPollingWork ∅ world_pair))))) = true /\
  activeFile (snd (fst (doPollingWork (fst (fst (doPollingWork ∅ world_pair)))
                                      (snd (fst (doPollingWork ∅ world_pair)))))) =
  activeFile (snd (fst (doPollingWork ∅ world_pair))).
Proof. split; vm_compute; reflexivity. Qed.

Lemma settled_stores init d n :
  settled init d n ->
  type n = "link" -> forall k, wv_matches d n = [k] -> lastUrl n = Some (src_at d k).
Proof.
  intros Hs Ht k Hk; specialize (Hs Ht); rewrite Hk in Hs; exact (proj2 Hs).
Qed.

(** A visit touches the [src] of its own element only. *)
Lemma fold_src_other ks : forall ps n ps' n' j,
  fold_left visit_element ks (ps, n) = (ps', n') -> ~ In j ks ->
  src_at (ps_dom ps') j = src_at (ps_dom ps) j.
Proof.
  induction ks as [|k ks IH]; intros ps n ps' n' j H Hj.
  { injection H as <- <-; reflexivity. }
  cbn [fold_left] in H.
  destruct (visit_element (ps, n) k) as [ps1 n1] eqn:Hv.
  rewrite (IH _ _ _ _ j H) by (intros C; apply Hj; right; exact C).
  destruct (visit_props _ _ _ _ _ Hv) as (_ & _ & [(_ & -> & _)|(_ & Hsrc & _)]);
    [reflexivity|].
  apply Hsrc; intros ->; apply Hj; left; reflexivity.
Qed.

Lemma process_node_src_other ps m ps' m' j :
  process_node ps m = (ps', m') ->
  (type m = "link" -> ~ In j (findAllCanvasNodesInDom m (ps_dom ps))) ->
  src_at (ps_dom ps') j = src_at (ps_dom ps) j.
Proof.
  unfold process_node; destruct (String.eqb_spec (type m) "link") as [Ht|Ht]; intros H Hj.
  - exact (fold_src_other _ _ _ _ _ j H (Hj Ht)).
  - injection H as <- <-; reflexivity.
Qed.

(** The records that do not match element [j] leave its [src] alone. *)
Lemma process_nodes_src_other ns : forall ps ps' ns' j,
  process_nodes ps ns = (ps', ns') ->
  Forall (fun m => type m = "link" -> ~ In j (findAllCanvasNodesInDom m (ps_dom ps))) ns ->
  src_at (ps_dom ps') j = src_at (ps_dom ps) j.
Proof.
  induction ns as [|m ns IH]; intros ps ps' ns' j H Hall; simpl in H.
  { injection H as <- <-; reflexivity. }
  destruct (process_node ps m) as [ps1 m1] eqn:H1.
  destruct (process_nodes ps1 ns) as [ps2 ns2] eqn:H2.
  injection H as <- <-.
  inversion Hall as [|? ? Hm Hrest]; subst.
  destruct (process_node_props _ _ _ _ H1) as (Hs1 & _).
  rewrite (IH _ _ _ j H2).
  - exact (process_node_src_other _ _ _ _ j H1 Hm).
  - eapply Forall_impl; [exact Hrest|]; intros m' Hm' Ht.
    rewrite (findAll_shape m' (ps_dom ps1) (ps_dom ps) Hs1). exact (Hm' Ht).
Qed.

(** A link record with a single matching element [k] that has a view
    leaves its loop storing what that view shows. *)
Lemma process_node_single ps n k ps' n' :
  process_node ps n = (ps', n') -> type n = "link" -> wv_matches (ps_dom ps) n = [k] ->
  n' = set_lastUrl n (src_at (ps_dom ps') k).
Proof.
  intros H Ht Hw. unfold process_node in H. rewrite Ht in H. cbn [String.eqb] in H.
  assert (Hk : has_webview (ps_dom ps) k = true)
    by (apply (in_wv_matches_webview _ n); rewrite Hw; left; reflexivity).
  unfold wv_matches in Hw. rewrite (fold_single _ k _ _ Hw) in H.
  destruct (visit_props _ _ _ _ _ H) as (_ & _ & [(Hk' & _)|(_ & _ & _ & Hl & [->| ->] & _)]).
  - congruence.
  - destruct n; cbn in *; subst; reflexivity.
  - reflexivity.
Qed.

Lemma fold_unchanged ks : forall ps n ps' n',
  fold_left visit_element ks (ps, n) = (ps', n') ->
  changed ps' = false -> changed ps = false /\ n' = n.
Proof.
  induction ks as [|k ks IH]; intros ps n ps' n' H Hc.
  { injection H as <- <-; split; [exact Hc|reflexivity]. }
  cbn [fold_left] in H.
  destruct (visit_element (ps, n) k) as [ps1 n1] eqn:Hv.
  destruct (IH _ _ _ _ H Hc) as [Hc1 ->].
  destruct (visit_props _ _ _ _ _ Hv) as (_ & _ & [(_ & -> & ->)|(_ & _ & _ & _ & _ & Hb & _)]).
  - split; [exact Hc1|reflexivity].
  - exact (Hb Hc1).
Qed.

(** A pass that sets no [changed] flag leaves every record as it was. *)
Lemma process_nodes_unchanged ns : forall ps ps' ns',
  process_nodes ps ns = (ps', ns') -> changed ps' = false -> changed ps = false /\ ns' = ns.
Proof.
  induction ns as [|m ns IH]; intros ps ps' ns' H Hc; simpl in H.
  { injection H as <- <-; split; [exact Hc|reflexivity]. }
  destruct (process_node ps m) as [ps1 m1] eqn:H1.
  destruct (process_nodes ps1 ns) as [ps2 ns2] eqn:H2.
  injection H as <- <-.
  destruct (IH _ _ _ H2 Hc) as [Hc1 ->].
  unfold process_node in H1; destruct (String.eqb (type m) "link").
  - destruct (fold_unchanged _ _ _ _ _ H1 Hc1) as [Hc0 ->]; split; [exact Hc0|reflexivity].
  - injection H1 as <- <-; split; [exact Hc1|reflexivity].
Qed.

(** The record at position [i], a link record whose only matching element
    with a view is [k], no other link record matching [k]. *)
Lemma process_nodes_at ns : forall ps ps' ns' i n k,
  process_nodes ps ns = (ps', ns') -> ns !! i = Some n -> type n = "link" ->
  wv_matches (ps_dom ps) n = [k] ->
  (forall j m, j <> i -> ns !! j = Some m -> type m = "link" ->
     ~ In k (findAllCanvasNodesInDom m (ps_dom ps))) ->
  ns' !! i = Some (set_lastUrl n (src_at (ps_dom ps') k)).
Proof.
  induction ns as [|m ns IH]; intros ps ps' ns' i n k H Hi Ht Hw Ho; [discriminate|].
  simpl in H. destruct (process_node ps m) as [ps1 m1] eqn:H1.
  destruct (process_nodes ps1 ns) as [ps2 ns2] eqn:H2. injection H as <- <-.
  destruct (process_node_props _ _ _ _ H1) as (Hs1 & _).
  destruct i as [|i]; simpl in Hi |- *.
  - injection Hi as ->.
    rewrite (process_node_single _ _ _ _ _ H1 Ht Hw).
    rewrite (process_nodes_src_other _ _ _ _ k H2); [reflexivity|].
    apply Forall_lookup_2; intros j m' Hj Ht'.
    rewrite (findAll_shape m' (ps_dom ps1) (ps_dom ps) Hs1).
    apply (Ho (S j) m'); [lia|exact Hj|exact Ht'].
  - apply (IH ps1 ps2 ns2 i n k H2 Hi Ht).
    + rewrite (wv_matches_shape _ _ n Hs1); exact Hw.
    + intros j m' Hj Hm Ht'. rewrite (findAll_shape m' (ps_dom ps1) (ps_dom ps) Hs1).
      apply (Ho (S j) m'); [lia|exact Hm|exact Ht'].
Qed.

(** Claim C6 (corrected).  Take a link record whose only matching
    element with a view is [k], where no other link record matches [k]
    (records elsewhere may be stacked at will).  After one pass, the
    written document keeps the edges and holds, at that record's
    position, the record with [lastUrl] set to the address view [k]
    shows at the end of the pass.  In particular the record created by
    [addAndSwitchModel] at (200, -1000, 760, 800), once its view shows
    https://chatgpt.com/c/abc, stores that address after one pass. *)
Theorem pass_stores_live_address init w f d i n k :
  activeFile w = Some f -> extension f = "canvas" -> contents f = Json d ->
  nodes d !! i = Some n -> type n = "link" -> wv_matches (dom w) n = [k] ->
  (forall j m, j <> i -> nodes d !! j = Some m -> type m = "link" ->
     ~ In k (findAllCanvasNodesInDom m (dom w))) ->
  (exists d',
     activeFile (snd (fst (doPollingWork init w))) = Some (mkFile "canvas" (Json d')) /\
     edges d' = edges d /\
     nodes d' !! i = Some (set_lastUrl n (src_at (dom (snd (fst (doPollingWork init w)))) k))) /\
  (forall now init0,
     activeFile (snd (fst (doPollingWork init0
       (mkWorld (addLinkNode now (mkFile "canvas" (Json (mkData [] [])))) [el_created])))) =
     Some (mkFile "canvas"
             (Json (mkData [set_lastUrl (newLinkNode now) "https://chatgpt.com/c/abc"] [])))).
Proof.
  intros Hf He Hc Hi Ht Hw Ho; split.
  - assert (Hr : readCanvasData f = Some d) by (unfold readCanvasData; rewrite Hc; reflexivity).
    destruct (process_nodes (mkPS init (dom w) false []) (nodes d)) as [ps ns'] eqn:Hp.
    pose proof (process_nodes_at _ _ _ _ i n k Hp Hi Ht Hw Ho) as Hat.
    unfold doPollingWork; rewrite Hf, He, Hr, Hp; simpl.
    destruct (changed ps) eqn:Hch; simpl.
    + exists (mkData ns' (edges d)); split; [reflexivity|]; split; [reflexivity|exact Hat].
    + destruct (process_nodes_unchanged _ _ _ _ Hp Hch) as [_ Hns].
      exists d; split; [destruct f as [ext c]; simpl in *; subst; reflexivity|].
      split; [reflexivity|]. rewrite <- Hns; exact Hat.
  - intros now init0.
    unfold doPollingWork, addLinkNode; simpl; unfold process_node; simpl.
    replace (findAllCanvasNodesInDom (newLinkNode now) [el_created]) with [0]
      by (vm_compute; reflexivity).
    simpl; unfold visit_element; simpl; unfold one_time_init; simpl.
    case_decide; simpl; reflexivity.
Qed.

Lemma pass_stores_live_address_witness :
  exclusive_world world_mixed = false /\
  (exists d',
     activeFile (snd (fst (doPollingWork ∅ world_mixed))) = Some (mkFile "canvas" (Json d')) /\
     edges d' = [] /\
     nodes d' !! 0 =
       Some (set_lastUrl node_stored (src_at (dom (snd (fst (doPollingWork ∅ world_mixed)))) 0))).
Proof.
  split; [vm_compute; reflexivity|].
  apply (proj1 (pass_stores_live_address ∅ world_mixed (mkFile "canvas" (Json data_mixed))
                  data_mixed 0 node_stored 0 eq_refl eq_refl eq_refl eq_refl eq_refl
                  ltac:(vm_compute; reflexivity)
                  ltac:(intros j m Hj Hm Ht;
                        destruct j as [|[|[|j]]]; [lia| | |discriminate];
                        injection Hm as <-; vm_compute; intros C;
                        repeat (destruct C as [C|C]; [discriminate C|]); exact C))).
Defined.

(** Claim C6: with two link records stacked at one geometry, the first
    record matches element 0, whose view shows "a", yet after one pass it
    stores "b", the address of the other view. *)
Lemma stacked_record_stores_other_view :
  In 0 (findAllCanvasNodesInDom node_dup (dom world_pair)) /\
  has_webview (dom world_pair) 0 = true /\
  activeFile (snd (fst (doPollingWork ∅ world_pair))) =
    Some (mkFile "canvas"
            (Json (mkData [set_lastUrl node_dup "b"; set_lastUrl node_dup2 "b"] []))) /\
  src_at (dom (snd (fst (doPollingWork ∅ world_pair)))) 0 = "a".
Proof.
  split; [vm_compute; left; reflexivity|].
  split; [|split]; vm_compute; reflexivity.
Qed.

(** ** Model switching: the record, the injection target *)

Lemma close_from_to (a : Q) (b : num) : close_from b a = close_to a b.
Proof.
  destruct b as [q| | |]; try reflexivity.
  apply Bool.eq_iff_eq_true. rewrite close_from_fin, close_to_fin. reflexivity.
Qed.

Lemma geom_target_node (n : CanvasNode) (g : num * num * num * num) :
  geom_matches_target (x n) (y n) (width n) (height n) g = geom_matches n g.
Proof.
  destruct g as [[[gx gy] gw] gh]. simpl. rewrite !close_from_to. reflexivity.
Qed.

Lemma find_first_head (n : CanvasNode) (els : list DomElement) (k : nat) :
  find_first_canvas_node (x n) (y n) (width n) (height n) els k = head (find_all_from n els k).
Proof.
  revert k. induction els as [|el els IH]; intros k; simpl; [reflexivity|].
  rewrite geom_target_node. destruct (geom_matches n (elem_geom el)); [reflexivity|].
  apply IH.
Qed.

(** [addAndSwitchModel] (both copies) writes nothing and schedules no
    injection unless the model is known, the active file is a canvas and
    its text parses: then it only shows one notice. *)
Theorem add_and_switch_no_write (wc : Q) (now chosenModel : string) (af : option TFile) :
  ~ (exists idx f d, model_index chosenModel = Some idx /\ af = Some f /\
                     extension f = "canvas" /\ readCanvasData f = Some d) ->
  exists k, add_and_switch wc now chosenModel af = (af, [MsNotice k]).
Proof.
  intros Hno. unfold add_and_switch.
  destruct (model_index chosenModel) as [idx|] eqn:Hm; [|eauto].
  destruct af as [f|]; [|eauto].
  destruct (String.eqb_spec (extension f) "canvas") as [He|He]; simpl; [|eauto].
  destruct (readCanvasData f) as [d|] eqn:Hr; [|eauto].
  exfalso. apply Hno. exists idx, f, d. auto.
Qed.

Lemma add_and_switch_no_write_witness :
  (~ (exists idx f d, model_index "gpt-4" = Some idx /\ @None TFile = Some f /\
                      extension f = "canvas" /\ readCanvasData f = Some d)) /\
  exists k, add_and_switch 760 "1" "gpt-4" None = (None, [MsNotice k]).
Proof.
  assert (H : ~ (exists idx f d, model_index "gpt-4" = Some idx /\ @None TFile = Some f /\
                                 extension f = "canvas" /\ readCanvasData f = Some d)).
  { intros (idx & f & d & Hm & _). vm_compute in Hm. discriminate. }
  split; [exact H|]. exact (add_and_switch_no_write 760 "1" "gpt-4" None H).
Defined.

(** Every model the selection modal offers is accepted: on a canvas file
    whose text parses, [addAndSwitchModel] writes the old records
    followed by the new link record (edges kept), announces it and
    schedules the model-switch injection at the record's geometry after
    2000 ms; the written file is the one [addLinkNode] describes. *)
Theorem modal_choice_appends_record (m now : string) (f : TFile) (d : CanvasData) :
  In m modal_models -> extension f = "canvas" -> readCanvasData f = Some d ->
  exists idx,
    model_index m = Some idx /\
    addAndSwitchModel now m (Some f) =
      (addLinkNode now f,
       [MsModify (mkData (nodes d ++ [newLinkNode now]) (edges d));
        MsNotice (NoticeCreated 200 (-1000));
        MsInjectAfter 2000 200 (-1000) 760 800 idx]) /\
    addLinkNode now f = Some (mkFile "canvas" (Json (mkData (nodes d ++ [newLinkNode now]) (edges d)))).
Proof.
  intros Hm He Hr.
  assert (Hidx : exists idx, model_index m = Some idx)
    by (destruct Hm as [<-|[<-|[<-|[]]]]; eauto).
  destruct Hidx as [idx Hidx]. exists idx. split; [exact Hidx|].
  unfold addAndSwitchModel, add_and_switch, addLinkNode.
  rewrite Hidx, He, Hr. simpl. split; reflexivity.
Qed.

Lemma modal_choice_appends_record_witness :
  In "o1-pro" modal_models /\ extension (mkFile "canvas" (Json (mkData [] []))) = "canvas" /\
  readCanvasData (mkFile "canvas" (Json (mkData [] []))) = Some (mkData [] []) /\
  exists idx,
    model_index "o1-pro" = Some idx /\
    addAndSwitchModel "7" "o1-pro" (Some (mkFile "canvas" (Json (mkData [] [])))) =
      (addLinkNode "7" (mkFile "canvas" (Json (mkData [] []))),
       [MsModify (mkData ([] ++ [newLinkNode "7"]) []);
        MsNotice (NoticeCreated 200 (-1000));
        MsInjectAfter 2000 200 (-1000) 760 800 idx]) /\
    addLinkNode "7" (mkFile "canvas" (Json (mkData [] []))) =
      Some (mkFile "canvas" (Json (mkData ([] ++ [newLinkNode "7"]) []))).
Proof.
  split; [simpl; auto|]. split; [reflexivity|]. split; [reflexivity|].
  exact (modal_choice_appends_record "o1-pro" "7" (mkFile "canvas" (Json (mkData [] [])))
           (mkData [] []) ltac:(simpl; auto) eq_refl eq_refl).
Defined.

(** The element [injectJSLikeModelSwitcher] sends the script to, for a
    record's coordinates, is the first element [findAllCanvasNodesInDom]
    gives for that record, and only when that first element has a
    [<webview>]: a matching element without one further on is never
    used. *)
Theorem injectJSLikeModelSwitcher_first_polled (n : CanvasNode) (dom : list DomElement) (k : nat) :
  injectJSLikeModelSwitcher (x n) (y n) (width n) (height n) dom = Some k <->
  head (findAllCanvasNodesInDom n dom) = Some k /\ has_webview dom k = true.
Proof.
  unfold injectJSLikeModelSwitcher, findAllCanvasNodesInDom. rewrite find_first_head.
  destruct (head (find_all_from n dom 0)) as [j|]; [|split; [discriminate | intuition discriminate]].
  destruct (has_webview dom j) eqn:Hw; split.
  - intros H. injection H as <-. auto.
  - intros [H _]. congruence.
  - discriminate.
  - intros [H H']. injection H as <-. congruence.
Qed.

(** The injection [addAndSwitchModel] schedules (either copy) carries
    the chosen model's index and targets the record it has just appended
    (the last record of the written file, id [now], type link): the
    element it reaches is the first element [findAllCanvasNodesInDom]
    gives for that record, provided that element has a [<webview>]. *)
Theorem add_and_switch_targets_new_record (wc : Q) (now chosenModel : string)
    (af : option TFile) (f' : TFile) (effs : list ms_effect)
    (ms : nat) (tx ty tw th : Q) (idx : nat) :
  add_and_switch wc now chosenModel af = (Some f', effs) ->
  In (MsInjectAfter ms tx ty tw th idx) effs ->
  model_index chosenModel = Some idx /\ ms = 2000 /\
  exists d n, readCanvasData f' = Some d /\ last (nodes d) = Some n /\
    id n = now /\ type n = "link" /\
    forall dom k,
      injectJSForModelClick tx ty tw th idx dom = Some (k, idx) <->
      head (findAllCanvasNodesInDom n dom) = Some k /\ has_webview dom k = true.
Proof.
  unfold add_and_switch. intros Hr Hin.
  destruct (model_index chosenModel) as [i|] eqn:Hm;
    [|injection Hr as _ <-; simpl in Hin; intuition discriminate].
  destruct af as [f|]; [|injection Hr as _ <-; simpl in Hin; intuition discriminate].
  destruct (negb (String.eqb (extension f) "canvas"));
    [injection Hr as _ <-; simpl in Hin; intuition discriminate|].
  destruct (readCanvasData f) as [d|];
    [|injection Hr as _ <-; simpl in Hin; intuition discriminate].
  injection Hr as <- <-. simpl in Hin.
  destruct Hin as [Hin|[Hin|[Hin|[]]]]; try discriminate.
  injection Hin as <- <- <- <- <- <-.
  split; [reflexivity|]. split; [reflexivity|].
  set (n := mkNode now "link" (Some "https://chatgpt.com") 200 (-1000) wc 800 None []).
  exists (mkData (nodes d ++ [n]) (edges d)), n.
  split; [reflexivity|]. split; [apply last_snoc|]. split; [reflexivity|]. split; [reflexivity|].
  intros dom k. unfold injectJSForModelClick, findAllCanvasNodesInDom.
  change 200%Q with (x n). change (-1000)%Q with (y n). change wc with (width n).
  change 800%Q with (height n). rewrite find_first_head.
  destruct (head (find_all_from n dom 0)) as [j|]; [|split; [discriminate | intuition discriminate]].
  destruct (has_webview dom j) eqn:Hw; split.
  - intros H. injection H as <-. auto.
  - intros [H _]. congruence.
  - discriminate.
  - intros [H H']. injection H as <-. congruence.
Qed.

Lemma add_and_switch_targets_new_record_witness :
  add_and_switch 760 "7" "o1" (Some (mkFile "canvas" (Json (mkData [] [])))) =
    (Some (mkFile "canvas" (Json (mkData [newLinkNode "7"] []))),
     [MsModify (mkData [newLinkNode "7"] []); MsNotice (NoticeCreated 200 (-1000));
      MsInjectAfter 2000 200 (-1000) 760 800 1]) /\
  In (MsInjectAfter 2000 200 (-1000) 760 800 1)
     [MsModify (mkData [newLinkNode "7"] []); MsNotice (NoticeCreated 200 (-1000));
      MsInjectAfter 2000 200 (-1000) 760 800 1] /\
  (model_index "o1" = Some 1 /\ 2000 = 2000 /\
   exists d n, readCanvasData (mkFile "canvas" (Json (mkData [newLinkNode "7"] []))) = Some d /\
     last (nodes d) = Some n /\ id n = "7" /\ type n = "link" /\
     forall dom k,
       injectJSForModelClick 200 (-1000) 760 800 1 dom = Some (k, 1) <->
       head (findAllCanvasNodesInDom n dom) = Some k /\ has_webview dom k = true).
Proof.
  assert (Hr : add_and_switch 760 "7" "o1" (Some (mkFile "canvas" (Json (mkData [] [])))) =
    (Some (mkFile "canvas" (Json (mkData [newLinkNode "7"] []))),
     [MsModify (mkData [newLinkNode "7"] []); MsNotice (NoticeCreated 200 (-1000));
      MsInjectAfter 2000 200 (-1000) 760 800 1])) by reflexivity.
  assert (Hin : In (MsInjectAfter 2000 200 (-1000) 760 800 1)
     [MsModify (mkData [newLinkNode "7"] []); MsNotice (NoticeCreated 200 (-1000));
      MsInjectAfter 2000 200 (-1000) 760 800 1]) by (simpl; auto).
  split; [exact Hr|]. split; [exact Hin|].
  exact (add_and_switch_targets_new_record 760 "7" "o1" _ _ _ 2000 200 (-1000) 760 800 1 Hr Hin).
Defined.

(** ** Interval timers *)

Lemma clearInterval_fresh (i : positive) (t0 : Timers) (l : list positive) :
  List.Forall (fun j => (j < next_id t0)%positive) l -> (next_id t0 <= i)%positive ->
  List.filter (fun j => negb (Pos.eqb i j)) (i :: l) = l.
Proof.
  intros Hl Hi. simpl. rewrite Pos.eqb_refl. simpl.
  induction Hl as [|j l Hj _ IH]; simpl; [reflexivity|].
  destruct (Pos.eqb_spec i j) as [->|Hne]; [lia|]. simpl. rewrite IH. reflexivity.
Qed.

Lemma start_inv (t0 : Timers) (iv : option positive) (t : Timers) :
  fresh_timers t0 -> timers_inv t0 iv t ->
  timers_inv t0 (fst (start iv t)) (snd (start iv t)).
Proof.
  intros H0 (Hf & Hle & Ha & Hi). destruct iv as [i|]; simpl; [repeat split; auto|].
  unfold timers_inv, fresh_timers in *. simpl. repeat split.
  - constructor; [lia|]. eapply List.Forall_impl; [|exact Hf]. simpl. intros. lia.
  - lia.
  - rewrite Ha. reflexivity.
  - intros i [= <-]. exact Hle.
Qed.

Lemma stop_inv (t0 : Timers) (iv : option positive) (t : Timers) :
  fresh_timers t0 -> timers_inv t0 iv t ->
  timers_inv t0 (fst (stop iv t)) (snd (stop iv t)).
Proof.
  intros H0 (Hf & Hle & Ha & Hi). destruct iv as [i|]; simpl; [|repeat split; auto; discriminate].
  unfold timers_inv, fresh_timers in *. simpl. repeat split.
  - apply List.Forall_forall. intros j Hj. apply List.filter_In in Hj as [Hj _].
    exact (proj1 (List.Forall_forall _ _) Hf j Hj).
  - exact Hle.
  - rewrite Ha. simpl. apply (clearInterval_fresh i t0); [exact H0 | exact (Hi i eq_refl)].
  - discriminate.
Qed.

Lemma run_calls_inv (t0 : Timers) (cs : list poll_call) :
  fresh_timers t0 -> forall iv t, timers_inv t0 iv t ->
  timers_inv t0 (fst (run_calls iv t cs)) (snd (run_calls iv t cs)).
Proof.
  intros H0. induction cs as [|c cs IH]; intros iv t Hinv; [exact Hinv|].
  destruct c; simpl.
  - pose proof (start_inv t0 iv t H0 Hinv) as Hs.
    destruct (start iv t) as [iv' t']. apply IH. exact Hs.
  - pose proof (stop_inv t0 iv t H0 Hinv) as Hs.
    destruct (stop iv t) as [iv' t']. apply IH. exact Hs.
Qed.

(** Whatever sequence of [start()] and [stop()] calls a fresh
    [CanvasPolling] receives, the host runs at most one timer for it:
    the active timers are the instance's [intervalId] (if set) followed
    by the timers that ran before, untouched; after a [stop()] none of
    its timers is left. *)
Theorem canvas_polling_single_timer (t0 : Timers) (cs : list poll_call) :
  fresh_timers t0 ->
  active (snd (run_calls None t0 cs)) = option_list (fst (run_calls None t0 cs)) ++ active t0 /\
  (last cs = Some CallStop -> fst (run_calls None t0 cs) = None).
Proof.
  intros H0. split.
  - apply (run_calls_inv t0 cs H0 None t0). repeat split; auto; [lia | discriminate].
  - assert (Hgen : forall iv t, last cs = Some CallStop -> fst (run_calls iv t cs) = None).
    { induction cs as [|c cs IH]; intros iv t Hl; [discriminate|].
      rewrite last_cons in Hl. destruct cs as [|c' cs'].
      - injection Hl as ->. simpl. destruct iv; reflexivity.
      - destruct (last (c' :: cs')) as [l|] eqn:El.
        + injection Hl as ->. destruct c; simpl;
            [destruct (start iv t) | destruct (stop iv t)]; apply IH; reflexivity.
        + apply last_None in El. discriminate. }
    apply Hgen.
Qed.

Lemma canvas_polling_single_timer_witness :
  fresh_timers (mkTimers 5 [2%positive; 4%positive]) /\
  active (snd (run_calls None (mkTimers 5 [2%positive; 4%positive]) [CallStart; CallStart; CallStop])) =
    option_list (fst (run_calls None (mkTimers 5 [2%positive; 4%positive]) [CallStart; CallStart; CallStop]))
      ++ [2%positive; 4%positive] /\
  (last [CallStart; CallStart; CallStop] = Some CallStop ->
   fst (run_calls None (mkTimers 5 [2%positive; 4%positive]) [CallStart; CallStart; CallStop]) = None).
Proof.
  assert (H0 : fresh_timers (mkTimers 5 [2%positive; 4%positive])).
  { unfold fresh_timers. simpl. repeat constructor; lia. }
  split; [exact H0|].
  exact (canvas_polling_single_timer (mkTimers 5 [2%positive; 4%positive])
           [CallStart; CallStart; CallStop] H0).
Defined.

Lemma lifecycle_step_inv (t0 : Timers) (b : bool) (e : lifecycle) (cp : option (option positive))
    (t : Timers) :
  fresh_timers t0 -> alternates b [e] = true -> plugin_inv t0 b cp t ->
  plugin_inv t0 (match e with OnLoad => true | OnUnload => false end)
    (fst (plugin_lifecycle_step cp t e)) (snd (plugin_lifecycle_step cp t e)).
Proof.
  intros H0 Ha Hinv. destruct e; simpl in Ha.
  - destruct b; [discriminate|].
    assert (Hn : timers_inv t0 None t)
      by (destruct cp as [[i|]|]; simpl in Hinv; [destruct Hinv; discriminate | tauto | tauto]).
    pose proof (start_inv t0 None t H0 Hn) as Hs. simpl.
    destruct (setInterval t) as [i t'] eqn:Es. simpl in *. split; [exact Hs | reflexivity].
  - destruct b; [|discriminate].
    destruct cp as [iv|]; simpl in Hinv; [|destruct Hinv; discriminate].
    destruct Hinv as [Hiv Hl]. pose proof (stop_inv t0 iv t H0 Hiv) as Hs. simpl.
    destruct (stop iv t) as [iv' t'] eqn:Es. simpl in *. split; [exact Hs|].
    destruct iv; simpl in Es; injection Es as <- _; reflexivity.
Qed.

Lemma run_lifecycle_inv (t0 : Timers) (es : list lifecycle) :
  fresh_timers t0 -> forall b cp t, alternates b es = true -> plugin_inv t0 b cp t ->
  plugin_inv t0 (match last es with Some OnLoad => true | Some OnUnload => false | None => b end)
    (fst (run_lifecycle cp t es)) (snd (run_lifecycle cp t es)).
Proof.
  intros H0. induction es as [|e es IH]; intros b cp t Ha Hinv; [exact Hinv|].
  assert (Ha1 : alternates b [e] = true)
    by (destruct e, b; simpl in *; try discriminate; reflexivity).
  pose proof (lifecycle_step_inv t0 b e cp t H0 Ha1 Hinv) as Hs.
  simpl. destruct (plugin_lifecycle_step cp t e) as [cp' t'] eqn:Es. simpl in Hs.
  rewrite last_cons.
  assert (Ha' : alternates (match e with OnLoad => true | OnUnload => false end) es = true)
    by (destruct e, b; simpl in Ha; try discriminate; exact Ha).
  pose proof (IH _ cp' t' Ha' Hs) as H.
  destruct (last es) as [[]|]; destruct e; exact H.
Qed.

(** When the host calls [onload] and [onunload] alternately (starting
    unloaded), the plugin adds at most one polling timer to the timers
    already running: exactly one while it is loaded, none once it has
    been unloaded. *)
Theorem plugin_lifecycle_timers (t0 : Timers) (es : list lifecycle) :
  fresh_timers t0 -> alternates false es = true ->
  exists extra, active (snd (run_lifecycle None t0 es)) = extra ++ active t0 /\
                length extra = (if ends_loaded es then 1 else 0).
Proof.
  intros H0 Ha.
  assert (Hinit : plugin_inv t0 false None t0)
    by (split; [reflexivity|]; repeat split; auto; [lia | discriminate]).
  pose proof (run_lifecycle_inv t0 es H0 false None t0 Ha Hinit) as H.
  unfold ends_loaded.
  destruct (run_lifecycle None t0 es) as [cp t]. simpl in *.
  destruct cp as [iv|]; simpl in H.
  - destruct H as [(_ & _ & Hact & _) Hl]. exists (option_list iv). split; [exact Hact|].
    destruct iv, (last es) as [[]|]; simpl in *; congruence.
  - destruct H as [Hl (_ & _ & Hact & _)]. exists []. split; [exact Hact|].
    destruct (last es) as [[]|]; simpl in *; congruence.
Qed.

Lemma plugin_lifecycle_timers_witness :
  fresh_timers (mkTimers 3 [1%positive]) /\ alternates false [OnLoad; OnUnload; OnLoad] = true /\
  exists extra,
    active (snd (run_lifecycle None (mkTimers 3 [1%positive]) [OnLoad; OnUnload; OnLoad])) =
      extra ++ [1%positive] /\
    length extra = (if ends_loaded [OnLoad; OnUnload; OnLoad] then 1 else 0).
Proof.
  assert (H0 : fresh_timers (mkTimers 3 [1%positive]))
    by (unfold fresh_timers; simpl; repeat constructor; lia).
  split; [exact H0|]. split; [reflexivity|].
  exact (plugin_lifecycle_timers (mkTimers 3 [1%positive]) [OnLoad; OnUnload; OnLoad] H0 eq_refl).
Defined.

(** ** The per-element assignment loops *)

Lemma save_loop_assign (els : list DomElement) (ns : list CanvasNode) (chg : bool) :
  save_loop els ns chg = assign_loop url set_url els ns chg.
Proof.
  revert ns chg. induction els as [|el els IH]; intros ns chg; simpl; [reflexivity|].
  destruct (webview el); [|apply IH].
  destruct (list_find _ ns) as [[i n]|]; [|apply IH].
  case_decide; apply IH.
Qed.

Lemma poll_loop_v1_assign (els : list DomElement) (ns : list CanvasNode) (chg : bool) :
  poll_loop_v1 els ns chg = assign_loop lastUrl set_lastUrl els ns chg.
Proof.
  revert ns chg. induction els as [|el els IH]; intros ns chg; simpl; [reflexivity|].
  destruct (webview el); [|apply IH].
  destruct (list_find _ ns) as [[i n]|]; [|apply IH].
  case_decide; apply IH.
Qed.

Lemma find_insert_fst {A} (P : A -> Prop) `{forall a, Decision (P a)}
    (l : list A) (i : nat) (a b : A) :
  l !! i = Some a -> (P a <-> P b) ->
  fst <$> list_find P (<[i := b]> l) = fst <$> list_find P l.
Proof.
  revert i. induction l as [|c l IH]; intros i Hl Hab; [discriminate|].
  destruct i as [|i]; simpl in *.
  - injection Hl as ->.
    destruct (decide (P b)), (decide (P a)); try tauto; reflexivity.
  - destruct (decide (P c)); [reflexivity|].
    specialize (IH i Hl Hab).
    destruct (list_find P (<[i:=b]> l)) as [[]|], (list_find P l) as [[]|];
      simpl in *; congruence.
Qed.

Lemma claim_some_lookup (ns : list CanvasNode) (el : DomElement) (j : nat) :
  claim ns el = Some j ->
  exists m s, ns !! j = Some m /\ webview el = Some s /\
              list_find (link_matching (elem_geom el)) ns = Some (j, m).
Proof.
  unfold claim. destruct (webview el) as [s|]; [|discriminate].
  destruct (list_find _ ns) as [[j' m]|] eqn:E; [|discriminate].
  intros [= <-]. apply list_find_Some in E as (Hm & _ & _). eauto.
Qed.

Section AssignLoop.

Variable get : CanvasNode -> option string.
Variable set : CanvasNode -> string -> CanvasNode.
Hypothesis get_set : forall n s, get (set n s) = Some s.
Hypothesis set_set : forall n s t, set (set n s) t = set n t.
Hypothesis set_same : forall n s, get n = Some s -> set n s = n.
Hypothesis set_matching : forall g n s, link_matching g (set n s) <-> link_matching g n.

Lemma claim_insert (ns : list CanvasNode) (i : nat) (n : CanvasNode) (s : string) (el : DomElement) :
  ns !! i = Some n -> claim (<[i := set n s]> ns) el = claim ns el.
Proof using All.
  intros Hn. unfold claim. destruct (webview el); [|reflexivity].
  apply (find_insert_fst _ ns i n); [exact Hn|]. symmetry. apply set_matching.
Qed.

Lemma srcs_for_ext (ns ns' : list CanvasNode) (i : nat) (els : list DomElement) :
  (forall el, claim ns' el = claim ns el) -> srcs_for ns' i els = srcs_for ns i els.
Proof using All.
  intros Hc. induction els as [|el els IH]; simpl; [reflexivity|].
  rewrite Hc, IH. reflexivity.
Qed.

Lemma assign_loop_claim (els : list DomElement) :
  forall ns chg el, claim (fst (assign_loop get set els ns chg)) el = claim ns el.
Proof using All.
  induction els as [|e els IH]; intros ns chg el; simpl; [reflexivity|].
  destruct (webview e) as [s|]; [|apply IH].
  destruct (list_find _ ns) as [[j m]|] eqn:E; [|apply IH].
  apply list_find_Some in E as (Hm & _ & _).
  case_decide; [apply IH|]. rewrite IH. apply claim_insert. exact Hm.
Qed.

Lemma assign_loop_length (els : list DomElement) :
  forall ns chg, length (fst (assign_loop get set els ns chg)) = length ns.
Proof using All.
  induction els as [|e els IH]; intros ns chg; simpl; [reflexivity|].
  destruct (webview e) as [s|]; [|apply IH].
  destruct (list_find _ ns) as [[j m]|]; [|apply IH].
  case_decide; rewrite IH; [reflexivity|]. apply length_insert.
Qed.

Lemma assign_loop_unchanged (els : list DomElement) :
  forall ns chg, snd (assign_loop get set els ns chg) = false ->
  fst (assign_loop get set els ns chg) = ns /\ chg = false.
Proof using All.
  induction els as [|e els IH]; intros ns chg; simpl; [auto|].
  destruct (webview e) as [s|]; [|apply IH].
  destruct (list_find _ ns) as [[j m]|]; [|apply IH].
  case_decide; [apply IH|]. intros Hc. apply IH in Hc as [_ Hc]. discriminate.
Qed.

Lemma assign_loop_lookup (els : list DomElement) :
  forall ns chg i n, ns !! i = Some n ->
  fst (assign_loop get set els ns chg) !! i =
    Some (match last (srcs_for ns i els) with Some s => set n s | None => n end).
Proof using All.
  induction els as [|el els IH]; intros ns chg i n Hn; simpl; [exact Hn|].
  destruct (webview el) as [s|] eqn:Hw; [|apply IH; exact Hn].
  assert (Hcl : claim ns el = fst <$> list_find (link_matching (elem_geom el)) ns)
    by (unfold claim; rewrite Hw; reflexivity).
  destruct (list_find _ ns) as [[j m]|] eqn:E; simpl in Hcl.
  2: { rewrite Hcl. case_decide; [discriminate|]. apply IH. exact Hn. }
  assert (Hm : ns !! j = Some m) by (apply list_find_Some in E; tauto).
  rewrite Hcl.
  case_decide as Hd.
  - rewrite (IH ns chg i n Hn). destruct (decide (Some j = Some i)) as [Hji|Hji].
    + rewrite last_cons. injection Hji as ->. rewrite Hn in Hm. injection Hm as ->.
      destruct (last (srcs_for ns i els)); [reflexivity|]. rewrite (set_same m s Hd). reflexivity.
    + reflexivity.
  - destruct (decide (j = i)) as [->|Hji].
    + rewrite Hn in Hm. injection Hm as ->.
      rewrite (IH _ true i (set m s)) by (apply list_lookup_insert_eq; eapply lookup_lt_Some; eauto).
      rewrite (srcs_for_ext ns) by (intros e; apply claim_insert; exact Hn).
      rewrite decide_True by reflexivity. rewrite last_cons.
      destruct (last (srcs_for ns i els)); [rewrite set_set|]; reflexivity.
    + rewrite (IH _ true i n) by (rewrite list_lookup_insert_ne by exact Hji; exact Hn).
      rewrite (srcs_for_ext ns) by (intros e; apply claim_insert; exact Hm).
      rewrite decide_False by congruence. reflexivity.
Qed.

Lemma In_srcs_for (ns : list CanvasNode) (j : nat) (els : list DomElement) (s : string) :
  In s (srcs_for ns j els) <->
  exists el, In el els /\ webview el = Some s /\ claim ns el = Some j.
Proof using All.
  induction els as [|el els IH]; simpl; [split; [tauto | intros (? & [] & _)]|].
  destruct (webview el) as [s'|] eqn:Hw.
  - case_decide as Hd; simpl; rewrite IH; split.
    + intros [<-|(e & ? & ? & ?)]; [exists el; auto | exists e; auto].
    + intros (e & [<-|He] & Hs & Hc); [left; congruence | right; exists e; auto].
    + intros (e & ? & ? & ?). exists e; auto.
    + intros (e & [<-|He] & Hs & Hc); [congruence | exists e; auto].
  - rewrite IH. split.
    + intros (e & ? & ? & ?). exists e; auto.
    + intros (e & [<-|He] & Hs & Hc); [congruence | exists e; auto].
Qed.

Lemma assign_loop_stable (els : list DomElement) :
  forall ns chg,
  (forall el s j, In el els -> webview el = Some s -> claim ns el = Some j ->
     exists m, ns !! j = Some m /\ get m = Some s) ->
  assign_loop get set els ns chg = (ns, chg).
Proof using All.
  induction els as [|el els IH]; intros ns chg Hst; simpl; [reflexivity|].
  assert (Hst' : forall e s j, In e els -> webview e = Some s -> claim ns e = Some j ->
                   exists m, ns !! j = Some m /\ get m = Some s)
    by (intros; apply Hst with e; simpl; auto).
  destruct (webview el) as [s|] eqn:Hw; [|apply IH; exact Hst'].
  destruct (list_find _ ns) as [[j m]|] eqn:E; [|apply IH; exact Hst'].
  assert (Hc : claim ns el = Some j) by (unfold claim; rewrite Hw, E; reflexivity).
  destruct (Hst el s j (or_introl eq_refl) Hw Hc) as (m' & Hm' & Hg).
  assert (Hm : ns !! j = Some m) by (apply list_find_Some in E; tauto).
  rewrite Hm in Hm'. injection Hm' as <-.
  rewrite decide_True by exact Hg. apply IH. exact Hst'.
Qed.

(** A second run over the same elements changes nothing when the
    elements assigned to one record all show the same page. *)
Lemma assign_loop_idempotent (els : list DomElement) (ns : list CanvasNode) :
  uniform_claims els ns ->
  assign_loop get set els (fst (assign_loop get set els ns false)) false =
    (fst (assign_loop get set els ns false), false).
Proof using All.
  intros Hu. apply assign_loop_stable.
  intros el s j Hin Hw Hc. rewrite assign_loop_claim in Hc.
  destruct (claim_some_lookup ns el j Hc) as (m & _ & Hm & _ & _).
  rewrite (assign_loop_lookup els ns false j m Hm).
  assert (Hne : In s (srcs_for ns j els)) by (apply In_srcs_for; eauto).
  destruct (last (srcs_for ns j els)) as [s'|] eqn:El.
  - exists (set m s'). split; [reflexivity|]. rewrite get_set.
    apply last_Some_elem_of, list_elem_of_In, In_srcs_for in El as (e & He & Hws & Hcs).
    f_equal. exact (Hu e el s' s j He Hin Hws Hw Hcs Hc).
  - apply last_None in El. rewrite El in Hne. destruct Hne.
Qed.

End AssignLoop.

Lemma url_laws :
  (forall n s, url (set_url n s) = Some s) /\
  (forall n s t, set_url (set_url n s) t = set_url n t) /\
  (forall n s, url n = Some s -> set_url n s = n) /\
  (forall g n s, link_matching g (set_url n s) <-> link_matching g n).
Proof.
  split; [|split; [|split]]; intros;
    [reflexivity | reflexivity | destruct n; simpl in *; subst; reflexivity
    | destruct n; reflexivity].
Qed.

Lemma lastUrl_laws :
  (forall n s, lastUrl (set_lastUrl n s) = Some s) /\
  (forall n s t, set_lastUrl (set_lastUrl n s) t = set_lastUrl n t) /\
  (forall n s, lastUrl n = Some s -> set_lastUrl n s = n) /\
  (forall g n s, link_matching g (set_lastUrl n s) <-> link_matching g n).
Proof.
  split; [|split; [|split]]; intros;
    [reflexivity | reflexivity | destruct n; simpl in *; subst; reflexivity
    | destruct n; reflexivity].
Qed.

(** Both functions have the same shape; [loop] is their loop. *)
Lemma assign_world_lookup (get : CanvasNode -> option string)
    (set : CanvasNode -> string -> CanvasNode) (run : World -> World * list effect)
    (w : World) (f : TFile) (d : CanvasData) (i : nat) (n : CanvasNode) :
  (forall n s, get (set n s) = Some s) ->
  (forall n s t, set (set n s) t = set n t) ->
  (forall n s, get n = Some s -> set n s = n) ->
  (forall g n s, link_matching g (set n s) <-> link_matching g n) ->
  (forall w, run w = assign_run get set w) ->
  activeFile w = Some f -> extension f = "canvas" -> readCanvasData f = Some d ->
  nodes d !! i = Some n ->
  exists d', file_data (fst (run w)) = Some d' /\ edges d' = edges d /\
    nodes d' !! i =
      Some (match last (srcs_for (nodes d) i (dom w)) with Some s => set n s | None => n end).
Proof.
  intros L1 L2 L3 L4 Hrun Hf He Hr Hn. rewrite Hrun. unfold assign_run. rewrite Hf, He, Hr. simpl.
  destruct (dom w) as [|el els] eqn:Hd.
  - exists d. unfold file_data. simpl. rewrite Hf. auto.
  - pose proof (assign_loop_lookup get set L1 L2 L3 L4 (el :: els) (nodes d) false i n Hn) as Hl.
    pose proof (assign_loop_unchanged get set L1 L2 L3 L4 (el :: els) (nodes d) false) as Hu.
    destruct (assign_loop get set (el :: els) (nodes d) false) as [ns' chg]. simpl in *.
    destruct chg.
    + exists (mkData ns' (edges d)). unfold file_data. simpl. auto.
    + destruct (Hu eq_refl) as [-> _]. exists d. unfold file_data. simpl. rewrite Hf. auto.
Qed.

Lemma saveAllWebviewUrls_assign (w : World) : saveAllWebviewUrls w = assign_run url set_url w.
Proof.
  unfold saveAllWebviewUrls, assign_run.
  destruct (activeFile w) as [f|]; [|reflexivity].
  destruct (negb (String.eqb (extension f) "canvas")); [reflexivity|].
  destruct (readCanvasData f); [|reflexivity]. destruct (dom w); [reflexivity|].
  rewrite save_loop_assign. reflexivity.
Qed.

Lemma doPollingWork_v1_assign (w : World) : doPollingWork_v1 w = assign_run lastUrl set_lastUrl w.
Proof.
  unfold doPollingWork_v1, assign_run.
  destruct (activeFile w) as [f|]; [|reflexivity].
  destruct (negb (String.eqb (extension f) "canvas")); [reflexivity|].
  destruct (readCanvasData f); [|reflexivity]. destruct (dom w); [reflexivity|].
  rewrite poll_loop_v1_assign. reflexivity.
Qed.

(** [saveAllWebviewUrls] and the first polling version (and part_000's
    polling) leave the edges alone and set each record's field ([url],
    resp. [lastUrl]) to the [src] of the LAST element with a [<webview>]
    whose first matching link record it is; a record no such element
    picks keeps its value. *)
Theorem last_webview_wins (w : World) (f : TFile) (d : CanvasData) (i : nat) (n : CanvasNode) :
  activeFile w = Some f -> extension f = "canvas" -> readCanvasData f = Some d ->
  nodes d !! i = Some n ->
  (exists d', file_data (fst (saveAllWebviewUrls w)) = Some d' /\ edges d' = edges d /\
     nodes d' !! i =
       Some (match last (srcs_for (nodes d) i (dom w)) with Some s => set_url n s | None => n end)) /\
  (exists d', file_data (fst (doPollingWork_v1 w)) = Some d' /\ edges d' = edges d /\
     nodes d' !! i =
       Some (match last (srcs_for (nodes d) i (dom w)) with Some s => set_lastUrl n s | None => n end)).
Proof.
  intros Hf He Hr Hn.
  destruct url_laws as (U1 & U2 & U3 & U4). destruct lastUrl_laws as (V1 & V2 & V3 & V4).
  split.
  - exact (assign_world_lookup url set_url saveAllWebviewUrls w f d i n U1 U2 U3 U4
             saveAllWebviewUrls_assign Hf He Hr Hn).
  - exact (assign_world_lookup lastUrl set_lastUrl doPollingWork_v1 w f d i n V1 V2 V3 V4
             doPollingWork_v1_assign Hf He Hr Hn).
Qed.

Lemma last_webview_wins_witness :
  activeFile world_pair = Some (mkFile "canvas" (Json (mkData [node_dup; node_dup2] []))) /\
  (exists d', file_data (fst (saveAllWebviewUrls world_pair)) = Some d' /\ edges d' = [] /\
     nodes d' !! 0 =
       Some (match last (srcs_for [node_dup; node_dup2] 0 (dom world_pair)) with
             | Some s => set_url node_dup s | None => node_dup end)) /\
  (exists d', file_data (fst (doPollingWork_v1 world_pair)) = Some d' /\ edges d' = [] /\
     nodes d' !! 0 =
       Some (match last (srcs_for [node_dup; node_dup2] 0 (dom world_pair)) with
             | Some s => set_lastUrl node_dup s | None => node_dup end)).
Proof.
  split; [reflexivity|].
  exact (last_webview_wins world_pair (mkFile "canvas" (Json (mkData [node_dup; node_dup2] [])))
           (mkData [node_dup; node_dup2] []) 0 node_dup eq_refl eq_refl eq_refl eq_refl).
Defined.

Lemma assign_run_idempotent (get : CanvasNode -> option string)
    (set : CanvasNode -> string -> CanvasNode) (w : World) :
  (forall n s, get (set n s) = Some s) ->
  (forall n s t, set (set n s) t = set n t) ->
  (forall n s, get n = Some s -> set n s = n) ->
  (forall g n s, link_matching g (set n s) <-> link_matching g n) ->
  (forall d, file_data w = Some d -> uniform_claims (dom w) (nodes d)) ->
  snd (assign_run get set (fst (assign_run get set w))) = [].
Proof.
  intros L1 L2 L3 L4 Hu.
  assert (Hsame : assign_run get set w = (w, []) -> snd (assign_run get set (fst (assign_run get set w))) = [])
    by (intros E; rewrite E; simpl; rewrite E; reflexivity).
  destruct (activeFile w) as [f|] eqn:Hf; [|apply Hsame; unfold assign_run; rewrite Hf; reflexivity].
  destruct (String.eqb_spec (extension f) "canvas") as [He|He];
    [|apply Hsame; unfold assign_run; rewrite Hf; destruct (String.eqb_spec (extension f) "canvas");
      [contradiction | reflexivity]].
  destruct (readCanvasData f) as [d|] eqn:Hr;
    [|apply Hsame; unfold assign_run; rewrite Hf, He, Hr; reflexivity].
  destruct (dom w) as [|el els] eqn:Hd;
    [apply Hsame; unfold assign_run; rewrite Hf, He, Hr, Hd; reflexivity|].
  pose proof (assign_loop_idempotent get set L1 L2 L3 L4 (el :: els) (nodes d)) as Hi.
  destruct (assign_loop get set (el :: els) (nodes d) false) as [ns' chg] eqn:E.
  simpl in Hi. destruct chg.
  - assert (E1 : assign_run get set w =
                   (mkWorld (Some (mkFile (extension f) (Json (mkData ns' (edges d))))) (el :: els),
                    [Save (mkData ns' (edges d))]))
      by (unfold assign_run; rewrite Hf, He, Hr, Hd, E; reflexivity).
    rewrite E1. unfold assign_run. simpl. rewrite He. simpl.
    rewrite Hi by (apply Hu; unfold file_data; rewrite Hf; exact Hr).
    reflexivity.
  - apply Hsame. unfold assign_run. rewrite Hf, He, Hr, Hd, E. reflexivity.
Qed.

(** When the elements assigned to one record all show the same page,
    running [saveAllWebviewUrls] (resp. the first polling version) a
    second time on its own result writes nothing: the second save ends
    in "Nothing changed". *)
Theorem second_run_writes_nothing (w : World) :
  (forall d, file_data w = Some d -> uniform_claims (dom w) (nodes d)) ->
  snd (saveAllWebviewUrls (fst (saveAllWebviewUrls w))) = [] /\
  snd (doPollingWork_v1 (fst (doPollingWork_v1 w))) = [].
Proof.
  intros Hu.
  destruct url_laws as (U1 & U2 & U3 & U4). destruct lastUrl_laws as (V1 & V2 & V3 & V4).
  rewrite !saveAllWebviewUrls_assign, !doPollingWork_v1_assign.
  split; [apply assign_run_idempotent | apply assign_run_idempotent]; assumption.
Qed.

Lemma second_run_writes_nothing_witness :
  (forall d, file_data world_stored = Some d -> uniform_claims (dom world_stored) (nodes d)) /\
  snd (saveAllWebviewUrls (fst (saveAllWebviewUrls world_stored))) = [] /\
  snd (doPollingWork_v1 (fst (doPollingWork_v1 world_stored))) = [].
Proof.
  assert (Hu : forall d, file_data world_stored = Some d ->
                 uniform_claims (dom world_stored) (nodes d)).
  { intros d _ el1 el2 s1 s2 j H1 H2 W1 W2 _ _. simpl in H1, H2.
    destruct H1 as [<-|[]], H2 as [<-|[]]. congruence. }
  split; [exact Hu|]. exact (second_run_writes_nothing world_stored Hu).
Defined.

(** ** matrix3d with fifteen arguments *)

Lemma str_app_nil (a : string) : String.append a EmptyString = a.
Proof. induction a as [|c a IH]; [reflexivity|]. rewrite str_app_cons, IH. reflexivity. Qed.

Lemma str_length_app (a b : string) :
  String.length (String.append a b) = String.length a + String.length b.
Proof. induction a as [|c a IH]; [reflexivity|]. rewrite str_app_cons. simpl. rewrite IH. reflexivity. Qed.

Lemma substring_app (a b : string) : substring 0 (String.length a) (String.append a b) = a.
Proof.
  induction a as [|c a IH]; [destruct b; reflexivity|].
  rewrite str_app_cons. simpl. rewrite IH. reflexivity.
Qed.

Lemma all_chars_app (p : ascii -> bool) (a b : string) :
  all_chars p (String.append a b) = (all_chars p a && all_chars p b)%bool.
Proof.
  induction a as [|c a IH]; [reflexivity|]. rewrite str_app_cons.
  unfold all_chars in *. simpl. rewrite IH. apply andb_assoc.
Qed.

Lemma all_chars_impl (p q : ascii -> bool) (s : string) :
  (forall c, p c = true -> q c = true) -> all_chars p s = true -> all_chars q s = true.
Proof.
  intros Hpq. unfold all_chars. induction s as [|c s IH]; simpl; [reflexivity|].
  intros H. apply andb_true_iff in H as [Hc Hs]. rewrite (Hpq c Hc), (IH Hs). reflexivity.
Qed.

Lemma ws_not_comma (c : ascii) : is_ws c = true -> negb (Ascii.eqb ","%char c) = true.
Proof.
  destruct c as [[] [] [] [] [] [] [] []]; vm_compute; intros H;
    first [reflexivity | discriminate].
Qed.

Lemma num_class_not_comma (c : ascii) : is_num_class c = true -> negb (Ascii.eqb ","%char c) = true.
Proof.
  destruct c as [[] [] [] [] [] [] [] []]; vm_compute; intros H;
    first [reflexivity | discriminate].
Qed.

Lemma split_on_shape (c : ascii) (s : string) :
  split_on c s = hd EmptyString (split_on c s) :: tl (split_on c s).
Proof.
  destruct s as [|d s]; simpl; [reflexivity|].
  destruct (Ascii.eqb c d); [reflexivity|]. destruct (split_on c s); reflexivity.
Qed.

Lemma split_on_app (c : ascii) (a b : string) :
  all_chars (fun d => negb (Ascii.eqb c d)) a = true ->
  split_on c (String.append a b) =
    String.append a (hd EmptyString (split_on c b)) :: tl (split_on c b).
Proof.
  induction a as [|d a IH]; intros Ha; [apply split_on_shape|].
  unfold all_chars in Ha. simpl in Ha. apply andb_true_iff in Ha as [Hd Ha].
  rewrite !str_app_cons. simpl. rewrite IH by exact Ha.
  apply negb_true_iff in Hd. rewrite Hd. reflexivity.
Qed.

Lemma split_render (a : string) (more : list (string * string)) :
  all_chars (fun d => negb (Ascii.eqb ","%char d)) a = true ->
  Forall (fun '(w, t) => all_chars is_ws w = true /\ plain_number t = true) more ->
  split_on ","%char (String.append a (render_more more)) =
    a :: map (fun p => String.append (fst p) (snd p)) more.
Proof.
  intros Ha Hall. revert a Ha.
  induction Hall as [|[w t] more [Hw Ht] _ IH]; intros a Ha.
  - simpl. rewrite split_on_app by exact Ha. simpl. rewrite !str_app_nil. reflexivity.
  - cbn [render_more map fst snd]. rewrite split_on_app by exact Ha. simpl.
    rewrite str_app_nil, <- str_app_assoc, IH; [reflexivity|].
    rewrite all_chars_app.
    rewrite (all_chars_impl is_ws _ w ws_not_comma Hw).
    unfold plain_number in Ht. apply andb_true_iff in Ht as [_ Ht].
    rewrite (all_chars_impl is_num_class _ t num_class_not_comma Ht). reflexivity.
Qed.

Lemma list_ascii_app (a b : string) :
  list_ascii_of_string (String.append a b) = list_ascii_of_string a ++ list_ascii_of_string b.
Proof. induction a as [|c a IH]; [reflexivity|]. rewrite str_app_cons. simpl. rewrite IH. reflexivity. Qed.

Lemma drop_ws_app (l1 l2 : list ascii) :
  forallb is_ws l1 = true -> drop_ws_list (l1 ++ l2) = drop_ws_list l2.
Proof.
  induction l1 as [|c l1 IH]; simpl; [reflexivity|].
  intros H. apply andb_true_iff in H as [Hc H]. rewrite Hc. apply IH. exact H.
Qed.

Lemma drop_ws_keep (l : list ascii) :
  List.Forall (fun c => is_ws c = false) l -> drop_ws_list l = l.
Proof. intros H. destruct H as [|c l Hc _]; simpl; [reflexivity|]. rewrite Hc. reflexivity. Qed.

Lemma trim_ws_num (w t : string) :
  all_chars is_ws w = true -> plain_number t = true -> trim (String.append w t) = t.
Proof.
  intros Hw Ht. unfold trim. rewrite list_ascii_app, drop_ws_app by exact Hw.
  unfold plain_number, all_chars in Ht. apply andb_true_iff in Ht as [_ Ht].
  assert (Hn : List.Forall (fun c => is_ws c = false) (list_ascii_of_string t)).
  { apply List.Forall_forall. intros c Hc. apply num_class_not_ws.
    exact (proj1 (List.forallb_forall _ _) Ht c Hc). }
  rewrite (drop_ws_keep _ Hn), (drop_ws_keep _ (List.Forall_rev Hn)), rev_involutive.
  apply string_of_list_ascii_of_string.
Qed.

Lemma skip_ws_num (w t r : string) :
  all_chars is_ws w = true -> plain_number t = true ->
  skip_ws (String.append w (String.append t r)) = String.append t r.
Proof.
  intros Hw Ht. destruct (plain_number_cons t Ht) as (c & t' & -> & Hc & _).
  unfold skip_ws. rewrite span_app by (simpl; auto using num_class_not_ws). reflexivity.
Qed.

Lemma num_tok_plain (t r : string) :
  plain_number t = true -> stops is_num_class r -> num_tok (String.append t r) = Some (t, r).
Proof.
  intros Ht Hr. destruct (plain_number_cons t Ht) as (c & t' & -> & Hc & Hall).
  unfold num_tok, span1. rewrite span_app by assumption. reflexivity.
Qed.

Lemma matrix3d_exec_text (w1 t1 : string) (more : list (string * string)) (rest : string) :
  all_chars is_ws w1 = true -> plain_number t1 = true -> length more = 14 ->
  Forall (fun '(w, t) => all_chars is_ws w = true /\ plain_number t = true) more ->
  matrix3d_exec (matrix3d_text w1 t1 more rest) = Some (String.append t1 (render_more more)).
Proof.
  intros Hw Ht Hlen Hall. unfold matrix3d_exec, matrix3d_text.
  rewrite strip_prefix_app. cbn [mbind option_bind].
  rewrite skip_ws_num by assumption.
  rewrite num_tok_plain by (auto using render_more_stops). cbn [mbind option_bind].
  rewrite <- Hlen, more_toks_render by (auto; reflexivity). cbn [mbind option_bind expect].
  rewrite Ascii.eqb_refl. cbn [mbind option_bind].
  rewrite <- str_app_assoc.
  rewrite (str_length_app (String.append t1 (render_more more))), Nat.add_sub, substring_app.
  reflexivity.
Qed.

Lemma nth_parse_snd (more : list (string * string)) (k : nat) :
  nth k (map (fun p => parseFloat (snd p)) more) NaN = parseFloat (nth k (map snd more) EmptyString).
Proof.
  revert k. induction more as [|p more IH]; intros [|k]; simpl; try reflexivity. apply IH.
Qed.

(** The text a [matrix3d] with fifteen plain numeric arguments (the
    count the regex accepts) yields the 13th and 14th arguments, read
    with [parseFloat], as (x, y). *)
Theorem matrix3d_15_args (w1 t1 : string) (more : list (string * string)) (rest : string) :
  all_chars is_ws w1 = true -> plain_number t1 = true -> length more = 14 ->
  Forall (fun '(w, t) => all_chars is_ws w = true /\ plain_number t = true) more ->
  parseTransformToXY (matrix3d_text w1 t1 more rest) =
    (parseFloat (nth 11 (map snd more) EmptyString), parseFloat (nth 12 (map snd more) EmptyString)).
Proof.
  intros Hw Ht Hlen Hall.
  assert (Hne : (String.eqb (matrix3d_text w1 t1 more rest) EmptyString ||
                 String.eqb (matrix3d_text w1 t1 more rest) "none")%bool = false)
    by reflexivity.
  assert (Hm : matrix_exec (matrix3d_text w1 t1 more rest) = None) by reflexivity.
  unfold parseTransformToXY. rewrite Hne, Hm, matrix3d_exec_text by assumption.
  assert (Hc : all_chars (fun d => negb (Ascii.eqb ","%char d)) t1 = true).
  { unfold plain_number in Ht. apply andb_true_iff in Ht as [_ Ht].
    exact (all_chars_impl is_num_class _ t1 num_class_not_comma Ht). }
  rewrite split_render by assumption. cbn [map].
  assert (Htr : trim t1 = t1) by exact (trim_ws_num EmptyString t1 eq_refl Ht).
  assert (Hmap : map (fun p => parseFloat (trim p)) (map (fun p => String.append (fst p) (snd p)) more)
                 = map (fun p => parseFloat (snd p)) more).
  { rewrite map_map. apply map_ext_in. intros [w t] Hin.
    apply List.Forall_forall with (x := (w, t)) in Hall as [Hw' Ht']; [|exact Hin].
    simpl. rewrite trim_ws_num by assumption. reflexivity. }
  rewrite Hmap. cbn [nth]. rewrite !nth_parse_snd. reflexivity.
Qed.

Lemma matrix3d_15_args_witness :
  parseTransformToXY "matrix3d(1, 0, 0, 0, 0, 1, 0, 0, 0, 0, 1, 0, 200, -1000, 0)" =
    (Fin 200, Fin (-1000)).
Proof.
  pose proof (matrix3d_15_args EmptyString "1"
                [(" ", "0"); (" ", "0"); (" ", "0"); (" ", "0"); (" ", "1"); (" ", "0");
                 (" ", "0"); (" ", "0"); (" ", "0"); (" ", "1"); (" ", "0"); (" ", "200");
                 (" ", "-1000"); (" ", "0")] EmptyString) as H.
  etransitivity; [exact (H eq_refl eq_refl eq_refl ltac:(repeat constructor)) |].
  vm_compute. reflexivity.
Defined.

(** ** parseFloat on computed lengths *)





(** ** part_000's findCanvasNodeByCoords *)

Lemma close_from_or0 (s : string) (a : Q) :
  (1 # 2 <= Qabs a)%Q -> close_from (parseFloat s) a = close_from (parseFloat_or0 s) a.
Proof.
  intros Ha. unfold parseFloat_or0. destruct (parseFloat s); try reflexivity.
  unfold num0. symmetry. destruct (close_from (Fin 0) a) eqn:E; [|reflexivity].
  apply close_from_fin in E. exfalso.
  assert (Hq : (Qabs (a - 0) == Qabs a)%Q) by (apply Qabs_wd; ring).
  rewrite Hq in E. assert (T : (2 ^ (-55) == 1 # 36028797018963968)%Q) by reflexivity.
  lra.
Qed.

Lemma find_by_coords_or0 (tx ty tw th : Q) (els : list DomElement) (k : nat) :
  (1 # 2 <= Qabs tw)%Q -> (1 # 2 <= Qabs th)%Q ->
  find_by_coords_loop tx ty tw th els k = find_first_canvas_node tx ty tw th els k.
Proof.
  intros Hw Hh. revert k. induction els as [|el els IH]; intros k; simpl; [reflexivity|].
  unfold elem_geom. destruct (parseTransformToXY (transform el)) as [dx dy].
  unfold geom_matches_target.
  rewrite (close_from_or0 (cssWidth el) tw Hw), (close_from_or0 (cssHeight el) th Hh).
  destruct (_ && _)%bool; [reflexivity | apply IH].
Qed.

(** On a canvas, part_000's [findCanvasNodeByCoords] (plain [parseFloat]
    of the computed width and height) picks the same element as the
    search of [injectJSForModelClick] ([parseFloat(...) || 0]) whenever
    the target width and height are at least 0.5 away from 0, as for
    the 860 x 800 record it creates: an unparsable width matches
    neither. *)
Theorem findCanvasNodeByCoords_agrees (tx ty tw th : Q) (w : World) (f : TFile) :
  activeFile w = Some f -> extension f = "canvas" ->
  (1 # 2 <= Qabs tw)%Q -> (1 # 2 <= Qabs th)%Q ->
  findCanvasNodeByCoords tx ty tw th w = find_first_canvas_node tx ty tw th (dom w) 0.
Proof.
  intros Hf He Hw Hh. unfold findCanvasNodeByCoords. rewrite Hf, He. simpl.
  apply find_by_coords_or0; assumption.
Qed.

Lemma findCanvasNodeByCoords_agrees_witness :
  findCanvasNodeByCoords 0 0 10 10 world_dup = find_first_canvas_node 0 0 10 10 (dom world_dup) 0.
Proof.
  apply (findCanvasNodeByCoords_agrees 0 0 10 10 world_dup
           (mkFile "canvas" (Json (mkData [node_dup] []))) eq_refl eq_refl);
    apply Qle_bool_iff; reflexivity.
Defined.
